(** * MongoDB model import checker: a shallow embedding of the scanning core

    The extension scans the text of a JavaScript/TypeScript document line by
    line.  [getImportedModels] collects the names bound by import/require
    syntax, [findModelMethodUsages] collects the [Model.method] call sites,
    [checkDocument] reports every usage whose model is not in the first set,
    and [ModelImportCodeActionProvider] turns a diagnostic back into an
    import statement together with the place where it is inserted.

    JavaScript strings are sequences of UTF-16 code units; a code unit is a
    number in [N], a string is a list of code units. *)

From Stdlib Require Import String Ascii NArith Lia.
From stdpp Require Import base option list gmap sorting.

Abbreviation char := N (only parsing).
Abbreviation jsstring := (list N) (only parsing).

(** Rocq string literals are used to write ASCII source text. *)
Definition lit (s : String.string) : jsstring :=
  N_of_ascii <$> list_ascii_of_string s.

(** The characters that cannot be written inside a Rocq literal. *)
Definition dquote : char := 34%N.
Definition newline : char := 10%N.

(** ** String primitives of the host language *)

Module JS.

(** WhiteSpace and LineTerminator code units: what [String.prototype.trim]
    strips and what the class [\s] contains. *)
Definition isSpace (c : char) : bool :=
  ((9 <=? c) && (c <=? 13) || (c =? 32) || (c =? 160) || (c =? 5760)
   || (8192 <=? c) && (c <=? 8202) || (c =? 8232) || (c =? 8233)
   || (c =? 8239) || (c =? 8287) || (c =? 12288) || (c =? 65279))%N.

Definition isUpper (c : char) : bool := ((65 <=? c) && (c <=? 90))%N.
Definition isLower (c : char) : bool := ((97 <=? c) && (c <=? 122))%N.
Definition isDigit (c : char) : bool := ((48 <=? c) && (c <=? 57))%N.

(** The class [\w], which is also [[a-zA-Z0-9_]]. *)
Definition isWord (c : char) : bool :=
  isLower c || isUpper c || isDigit c || (c =? 95)%N.

(** The class [.]: everything but the four line terminators. *)
Definition isDot (c : char) : bool :=
  negb ((c =? 10) || (c =? 13) || (c =? 8232) || (c =? 8233))%N.

Fixpoint trimStart (s : jsstring) : jsstring :=
  match s with
  | c :: s' => if isSpace c then trimStart s' else s
  | [] => []
  end.

Definition trimEnd (s : jsstring) : jsstring :=
  reverse (trimStart (reverse s)).

Definition trim (s : jsstring) : jsstring := trimEnd (trimStart s).

Fixpoint startsWith (s p : jsstring) : bool :=
  match p, s with
  | [], _ => true
  | a :: p', b :: s' => (a =? b)%N && startsWith s' p'
  | _ :: _, [] => false
  end.

Fixpoint includes (s p : jsstring) : bool :=
  startsWith s p ||
  match s with
  | [] => false
  | _ :: s' => includes s' p
  end.

(** [s.split(sep)] for a separator of one code unit, the only kind the
    extension uses.  The result is never empty. *)
Fixpoint split (sep : char) (s : jsstring) : list jsstring :=
  match s with
  | [] => [[]]
  | c :: s' =>
      if (c =? sep)%N then [] :: split sep s'
      else match split sep s' with
           | w :: ws => (c :: w) :: ws
           | [] => [[c]]
           end
  end.

End JS.

(** ** Regular expressions

    The backtracking matcher of the host language, for the fragment the
    extension's patterns are written in: character sets, concatenation,
    ordered alternation, the quantifiers [*], [+] and [*?] applied to a
    character set, capturing groups, [\b] and [^]. *)

Module RegExp.

Inductive regex : Type :=
| Empty
| Chr (p : char -> bool)
| Seq (r1 r2 : regex)
| Alt (r1 r2 : regex)
| Star (greedy : bool) (p : char -> bool)
| Group (n : nat) (r : regex)
| WordBoundary
| LineStart.

(** [p+] is [p p*]. *)
Definition Plus (p : char -> bool) : regex := Seq (Chr p) (Star true p).

(** A run of literal characters. *)
Fixpoint Lit (s : jsstring) : regex :=
  match s with
  | [] => Empty
  | c :: s' => Seq (Chr (N.eqb c)) (Lit s')
  end.

(** [r1|r2|...|rn]; the pattern with no alternative at all is the empty
    pattern. *)
Fixpoint alts (rs : list regex) : regex :=
  match rs with
  | [] => Empty
  | [r] => r
  | r :: rs' => Alt r (alts rs')
  end.

Infix ">+>" := Seq (at level 62, right associativity).

(** A position in the subject: the text before it, last character first,
    and the text after it. *)
Record pos : Type := Pos { before : jsstring; after : jsstring }.

(** The captures: [None] is [undefined]. *)
Definition captures : Type := nat -> option jsstring.

Definition noCaptures : captures := fun _ => None.

Definition capture (n : nat) (s : jsstring) (caps : captures) : captures :=
  fun i => if decide (i = n) then Some s else caps i.

(** The text between two positions of the same subject. *)
Definition consumed (st st' : pos) : jsstring :=
  reverse (take (length (before st') - length (before st)) (before st')).

Definition isWordAt (s : jsstring) : bool :=
  match s with
  | c :: _ => JS.isWord c
  | [] => false
  end.

Definition cont (R : Type) : Type := pos -> captures -> option R.

Fixpoint starGreedy {R} (p : char -> bool) (pre rest : jsstring)
    (caps : captures) (k : cont R) : option R :=
  match rest with
  | c :: rest' =>
      if p c then
        match starGreedy p (c :: pre) rest' caps k with
        | Some r => Some r
        | None => k (Pos pre rest) caps
        end
      else k (Pos pre rest) caps
  | [] => k (Pos pre rest) caps
  end.

Fixpoint starLazy {R} (p : char -> bool) (pre rest : jsstring)
    (caps : captures) (k : cont R) : option R :=
  match k (Pos pre rest) caps with
  | Some r => Some r
  | None =>
      match rest with
      | c :: rest' => if p c then starLazy p (c :: pre) rest' caps k else None
      | [] => None
      end
  end.

(** [run r st caps k]: match [r] at [st], then continue with [k]; the
    first way to succeed, in the engine's priority order, is the result. *)
Fixpoint run {R} (r : regex) (st : pos) (caps : captures) (k : cont R)
    : option R :=
  match r with
  | Empty => k st caps
  | Chr p =>
      match after st with
      | c :: rest => if p c then k (Pos (c :: before st) rest) caps else None
      | [] => None
      end
  | Seq r1 r2 => run r1 st caps (fun st' caps' => run r2 st' caps' k)
  | Alt r1 r2 =>
      match run r1 st caps k with
      | Some x => Some x
      | None => run r2 st caps k
      end
  | Star true p => starGreedy p (before st) (after st) caps k
  | Star false p => starLazy p (before st) (after st) caps k
  | Group n r =>
      run r st caps (fun st' caps' => k st' (capture n (consumed st st') caps'))
  | WordBoundary =>
      if xorb (isWordAt (before st)) (isWordAt (after st)) then k st caps
      else None
  | LineStart =>
      match before st with
      | [] => k st caps
      | _ :: _ => None
      end
  end.

(** A match: where it starts, where it ends, and its captures. *)
Record result : Type := Result {
  index : nat;
  endPos : pos;
  groups : captures
}.

(** The match that starts exactly at [st], if any. *)
Definition matchAt (r : regex) (st : pos) : option result :=
  run r st noCaptures
    (fun st' caps => Some (Result (length (before st)) st' caps)).

(** The leftmost match at or after a position; the end of the subject is
    tried as well. *)
Fixpoint searchFrom (r : regex) (pre rest : jsstring) : option result :=
  match matchAt r (Pos pre rest) with
  | Some res => Some res
  | None =>
      match rest with
      | c :: rest' => searchFrom r (c :: pre) rest'
      | [] => None
      end
  end.

(** [s.match(r)] and [r.exec(s)] for a pattern without the [g] flag. *)
Definition exec (r : regex) (s : jsstring) : option result :=
  searchFrom r [] s.

(** [r.test(s)]. *)
Definition test (r : regex) (s : jsstring) : bool :=
  bool_decide (is_Some (exec r s)).

(** The loop [while ((match = r.exec(s)) !== null)] for a pattern with the
    [g] flag: each search resumes at [lastIndex], the end of the previous
    match.  [fuel] bounds the number of iterations. *)
Fixpoint execLoop (fuel : nat) (r : regex) (st : pos) : list result :=
  match fuel with
  | O => []
  | S fuel' =>
      match searchFrom r (before st) (after st) with
      | Some res => res :: execLoop fuel' r (endPos res)
      | None => []
      end
  end.

(** [s.split(r)[0]] for a pattern that cannot match the empty string: the
    text before the leftmost match, the whole of [s] when there is none. *)
Definition splitHead (r : regex) (s : jsstring) : jsstring :=
  match exec r s with
  | Some res => take (index res) s
  | None => s
  end.

End RegExp.

Import RegExp.

(** ** The extension *)

(** *** The patterns, one definition per regular-expression literal *)

Definition isQuote (c : char) : bool := ((c =? 39) || (c =? dquote))%N.
Definition notRBrace (c : char) : bool := negb (c =? 125)%N.

(** [/import\s+(?:(\w+)|{([^}]+)}|\*\s+as\s+(\w+))\s+from\s+Q/], where [Q]
    is the set of the two quote characters. *)
Definition es6ImportRe : regex :=
  Lit (lit "import") >+> Plus JS.isSpace >+>
  Alt (Group 1 (Plus JS.isWord))
      (Alt (Lit (lit "{") >+> Group 2 (Plus notRBrace) >+> Lit (lit "}"))
           (Lit (lit "*") >+> Plus JS.isSpace >+> Lit (lit "as") >+>
            Plus JS.isSpace >+> Group 3 (Plus JS.isWord))) >+>
  Plus JS.isSpace >+> Lit (lit "from") >+> Plus JS.isSpace >+> Chr isQuote.

(** [/(?:const|let|var)\s+(?:(\w+)|{([^}]+)})\s*=\s*require\s*\(/] *)
Definition requireRe : regex :=
  Alt (Lit (lit "const")) (Alt (Lit (lit "let")) (Lit (lit "var"))) >+>
  Plus JS.isSpace >+>
  Alt (Group 1 (Plus JS.isWord))
      (Lit (lit "{") >+> Group 2 (Plus notRBrace) >+> Lit (lit "}")) >+>
  Star true JS.isSpace >+> Lit (lit "=") >+> Star true JS.isSpace >+>
  Lit (lit "require") >+> Star true JS.isSpace >+> Lit (lit "(").

(** [/\s+as\s+/] *)
Definition asRe : regex :=
  Plus JS.isSpace >+> Lit (lit "as") >+> Plus JS.isSpace.

(** [/\s*:\s*/] *)
Definition colonRe : regex :=
  Star true JS.isSpace >+> Lit (lit ":") >+> Star true JS.isSpace.

(** The global pattern [\b(U W* )\.(methodsPattern)\b], with [U] for
    [[A-Z]] and [W] for [[a-zA-Z0-9_]], where [methodsPattern] is
    [modelMethods] joined with [|].

    In the code the entries of the list are pattern source: the joined text
    is handed to [new RegExp], which reads a metacharacter in an entry as
    pattern syntax and throws on an entry that is not a pattern.  Here each
    entry is read as literal text.  The two readings are the same for an
    entry made of word characters, as all the default entries are, and for
    the empty list; a property that depends on what an entry matches is
    stated for such entries only ([Forall isName modelMethods]). *)
Definition methodsPattern (modelMethods : list jsstring) : regex :=
  alts (Lit <$> modelMethods).

Definition modelMethodRegex (modelMethods : list jsstring) : regex :=
  WordBoundary >+>
  Group 1 (Chr JS.isUpper >+> Star true JS.isWord) >+>
  Lit (lit ".") >+> Group 2 (methodsPattern modelMethods) >+> WordBoundary.

(** [/^\s*(import|const|let|var)\s+.*?=\s*require/] *)
Definition requireLineRe : regex :=
  LineStart >+> Star true JS.isSpace >+>
  Group 1 (Alt (Lit (lit "import"))
            (Alt (Lit (lit "const")) (Alt (Lit (lit "let")) (Lit (lit "var"))))) >+>
  Plus JS.isSpace >+> Star false JS.isDot >+> Lit (lit "=") >+>
  Star true JS.isSpace >+> Lit (lit "require").

(** [/^\s*import\s+/] *)
Definition importLineRe : regex :=
  LineStart >+> Star true JS.isSpace >+> Lit (lit "import") >+> Plus JS.isSpace.

(** [/^(const|let|var)\s+.*=\s*require/] *)
Definition requireAssignRe : regex :=
  LineStart >+>
  Group 1 (Alt (Lit (lit "const")) (Alt (Lit (lit "let")) (Lit (lit "var")))) >+>
  Plus JS.isSpace >+> Star true JS.isDot >+> Lit (lit "=") >+>
  Star true JS.isSpace >+> Lit (lit "require").

(** [/Model '(\w+)' is not imported/] *)
Definition modelNameRe : regex :=
  Lit (lit "Model '") >+> Group 1 (Plus JS.isWord) >+> Lit (lit "' is not imported").

(** *** Editor data *)

Record Position : Type := mkPosition { line : nat; character : nat }.

Record Range : Type := mkRange { start : Position; end_ : Position }.

Inductive DiagnosticSeverity : Type := Error | Warning | Information | Hint.

Record Diagnostic : Type := mkDiagnostic {
  range : Range;
  message : jsstring;
  severity : DiagnosticSeverity;
  code : jsstring;
  source : jsstring
}.

Record TextDocument : Type := mkTextDocument {
  uri : jsstring;
  languageId : jsstring;
  getText : jsstring
}.

(** The settings under [mongodbSchemaChecker]. *)
Record Configuration : Type := mkConfiguration {
  checkOnType : bool;
  skipLargeFiles : bool;
  maxFileSize : Z;
  modelMethods : list jsstring
}.

Definition defaultModelMethods : list jsstring :=
  lit <$>
  [ "find"; "findOne"; "findById"; "findOneAndUpdate"; "findByIdAndUpdate";
    "findOneAndDelete"; "findByIdAndDelete"; "findOneAndRemove";
    "findByIdAndRemove"; "findOneAndReplace"; "where"; "exists"; "distinct";
    "create"; "insertMany"; "save";
    "update"; "updateOne"; "updateMany"; "replaceOne";
    "remove"; "deleteOne"; "deleteMany";
    "count"; "countDocuments"; "estimatedDocumentCount";
    "aggregate"; "mapReduce"; "populate";
    "validate"; "validateSync";
    "createIndexes"; "ensureIndexes"; "syncIndexes"; "listIndexes";
    "watch"; "bulkWrite"; "hydrate"; "init"; "startSession";
    "translateAliases";
    "discriminator"; "on"; "once"; "emit" ]%string.

Definition defaultConfiguration : Configuration :=
  {| checkOnType := true;
     skipLargeFiles := true;
     maxFileSize := 100000%Z;
     modelMethods := defaultModelMethods |}.

(** *** Comment tracking

    Both scanning loops open with the same statements: they update
    [inMultiLineComment] from the trimmed line and decide whether the line
    is skipped.  [trackComment] returns the new flag and that decision. *)
Definition trackComment (inMultiLineComment : bool) (trimmedLine : jsstring)
    : bool * bool :=
  let inMultiLineComment :=
    if JS.includes trimmedLine (lit "/*") then true else inMultiLineComment in
  if inMultiLineComment then
    (if JS.includes trimmedLine (lit "*/") then false else inMultiLineComment,
     true)
  else (inMultiLineComment, JS.startsWith trimmedLine (lit "//")).

(** *** getImportedModels *)

(** A capture used as a condition: [undefined] and the empty string are
    both false. *)
Definition truthy (g : option jsstring) : list jsstring :=
  match g with
  | Some (c :: s) => [c :: s]
  | _ => []
  end.

(** The entries of a braced list [g]: [g] is split at the commas, and each
    piece is trimmed, cut at the first match of [re], and trimmed again. *)
Definition namedImports (re : regex) (g : jsstring) : list jsstring :=
  (fun name => JS.trim (splitHead re (JS.trim name))) <$> JS.split 44%N g.

(** The names the ES6 branch adds for one line, in the order of the
    [add] calls. *)
Definition es6Names (line : jsstring) : list jsstring :=
  match exec es6ImportRe line with
  | Some es6ImportMatch =>
      truthy (groups es6ImportMatch 1)
      ++ (truthy (groups es6ImportMatch 2) ≫= namedImports asRe)
      ++ truthy (groups es6ImportMatch 3)
  | None => []
  end.

(** The names the CommonJS branch adds for one line. *)
Definition requireNames (line : jsstring) : list jsstring :=
  match exec requireRe line with
  | Some requireMatch =>
      truthy (groups requireMatch 1)
      ++ (truthy (groups requireMatch 2) ≫= namedImports colonRe)
  | None => []
  end.

Definition addAll (names : list jsstring) (importedModels : gset jsstring)
    : gset jsstring :=
  foldl (fun models name => {[name]} ∪ models) importedModels names.

(** The loop over the lines, from a given flag and set. *)
Fixpoint importsFrom (inMultiLineComment : bool) (importedModels : gset jsstring)
    (lines : list jsstring) : gset jsstring :=
  match lines with
  | [] => importedModels
  | line :: lines' =>
      let trimmedLine := JS.trim line in
      let '(inMultiLineComment, skip) :=
        trackComment inMultiLineComment trimmedLine in
      if skip then importsFrom inMultiLineComment importedModels lines'
      else
        importsFrom inMultiLineComment
          (addAll (requireNames line) (addAll (es6Names line) importedModels))
          lines'
  end.

Definition getImportedModels (text : jsstring) : gset jsstring :=
  importsFrom false ∅ (JS.split newline text).

(** *** findModelMethodUsages *)

Record Usage : Type := mkUsage {
  usageRange : Range;
  modelName : jsstring;
  methodName : jsstring
}.

Definition usageOf (lineIndex : nat) (m : result) : Usage :=
  let modelName := default [] (groups m 1) in
  let methodName := default [] (groups m 2) in
  let startPos := mkPosition lineIndex (index m) in
  let endPos := mkPosition lineIndex (index m + length modelName) in
  mkUsage (mkRange startPos endPos) modelName methodName.

(** The inner [while] loop on one line.  A match takes at least two
    characters, so the loop runs at most [length line] times. *)
Definition lineUsages (modelMethods : list jsstring) (lineIndex : nat)
    (line : jsstring) : list Usage :=
  usageOf lineIndex <$>
    execLoop (S (length line)) (modelMethodRegex modelMethods) (Pos [] line).

Fixpoint usagesFrom (modelMethods : list jsstring) (inMultiLineComment : bool)
    (lineIndex : nat) (lines : list jsstring) : list Usage :=
  match lines with
  | [] => []
  | line :: lines' =>
      let trimmedLine := JS.trim line in
      let '(inMultiLineComment, skip) :=
        trackComment inMultiLineComment trimmedLine in
      if skip then usagesFrom modelMethods inMultiLineComment (S lineIndex) lines'
      else if test requireLineRe line || test importLineRe line then
        usagesFrom modelMethods inMultiLineComment (S lineIndex) lines'
      else
        lineUsages modelMethods lineIndex line
        ++ usagesFrom modelMethods inMultiLineComment (S lineIndex) lines'
  end.

Definition findModelMethodUsages (text : jsstring) (modelMethods : list jsstring)
    : list Usage :=
  usagesFrom modelMethods false 0 (JS.split newline text).

(** *** checkDocument *)

Definition notImportedMessage (modelName : jsstring) : jsstring :=
  lit "Model '" ++ modelName
  ++ lit "' is not imported. Please import the model before using it.".

Definition diagnosticOf (usage : Usage) : Diagnostic :=
  {| range := usageRange usage;
     message := notImportedMessage (modelName usage);
     severity := Warning;
     code := lit "missing-model-import";
     source := lit "MongoDB Schema Checker" |}.

(** The scan proper: the part of [checkDocument] after its two gates. *)
Definition scan (text : jsstring) (modelMethods : list jsstring)
    : list Diagnostic :=
  let importedModels := getImportedModels text in
  let modelUsages := findModelMethodUsages text modelMethods in
  foldl (fun diagnostics usage =>
           if decide (modelName usage ∈ importedModels) then diagnostics
           else diagnostics ++ [diagnosticOf usage])
        [] modelUsages.

Definition checkedLanguages : list jsstring :=
  lit <$> [ "javascript"; "typescript"; "javascriptreact"; "typescriptreact" ]%string.

(** [None] is an early return: the diagnostics of the document are left as
    they were.  [Some ds] is what [diagnosticCollection.set] receives. *)
Definition checkDocument (config : Configuration) (document : TextDocument)
    : option (list Diagnostic) :=
  if negb (bool_decide (languageId document ∈ checkedLanguages)) then None
  else
    let text := getText document in
    if skipLargeFiles config && (maxFileSize config <? Z.of_nat (length text))%Z
    then None
    else Some (scan text (modelMethods config)).

(** *** ModelImportCodeActionProvider *)

Inductive CodeActionKind : Type := QuickFix.

Inductive ImportType : Type := DefaultImport | NamedImport.

(** One [insert] of a [WorkspaceEdit]. *)
Record TextEdit : Type := mkTextEdit {
  editUri : jsstring;
  editPosition : Position;
  newText : jsstring
}.

Record CodeAction : Type := mkCodeAction {
  title : jsstring;
  kind : CodeActionKind;
  diagnostics : list Diagnostic;
  isPreferred : bool;
  edit : list TextEdit
}.

(** [null] is [None]. *)
Definition extractModelName (message : jsstring) : option jsstring :=
  match exec modelNameRe message with
  | Some m => groups m 1
  | None => None
  end.

(** The test made twice per line by [findImportInsertPosition], on the
    trimmed line. *)
Definition isImportOrRequire (line : jsstring) : bool :=
  JS.startsWith line (lit "import ") || test requireAssignRe line.

(** The [for] loop of [findImportInsertPosition]; the result is the value of
    [lastImportLine] when the loop is left. *)
Fixpoint lastImportLineFrom (lastImportLine : Z) (i : nat)
    (lines : list jsstring) : Z :=
  match lines with
  | [] => lastImportLine
  | l :: lines' =>
      let line := JS.trim l in
      let lastImportLine :=
        if isImportOrRequire line then Z.of_nat i else lastImportLine in
      if bool_decide (line ≠ [])
         && negb (JS.startsWith line (lit "import "))
         && negb (JS.startsWith line (lit "//"))
         && negb (JS.startsWith line (lit "/*"))
         && negb (JS.startsWith line (lit "*"))
         && negb (test requireAssignRe line)
         && (0 <=? lastImportLine)%Z
      then lastImportLine
      else lastImportLineFrom lastImportLine (S i) lines'
  end.

Definition findImportInsertPosition (document : TextDocument) : Position :=
  let lastImportLine :=
    lastImportLineFrom (-1) 0 (JS.split newline (getText document)) in
  if (0 <=? lastImportLine)%Z then mkPosition (Z.to_nat (lastImportLine + 1)) 0
  else mkPosition 0 0.

(** The edit of the action is the single [insert] of the import statement
    at the insertion point. *)
Definition createImportAction (document : TextDocument) (diagnostic : Diagnostic)
    (modelName : jsstring) (importType : ImportType) : CodeAction :=
  let importStatement :=
    match importType with
    | DefaultImport =>
        lit "import " ++ modelName ++ lit " from " ++ [dquote]
        ++ lit "./models/" ++ modelName ++ [dquote] ++ lit ";" ++ [newline]
    | NamedImport =>
        lit "import { " ++ modelName ++ lit " } from " ++ [dquote]
        ++ lit "./models" ++ [dquote] ++ lit ";" ++ [newline]
    end in
  let insertPosition := findImportInsertPosition document in
  {| title :=
       match importType with
       | DefaultImport =>
           lit "Import " ++ modelName ++ lit " from './models/" ++ modelName
           ++ lit "'"
       | NamedImport => lit "Import { " ++ modelName ++ lit " } from './models'"
       end;
     kind := QuickFix;
     diagnostics := [diagnostic];
     isPreferred :=
       match importType with DefaultImport => true | NamedImport => false end;
     edit := [mkTextEdit (uri document) insertPosition importStatement] |}.

(** The [range] and [token] arguments are not used; [contextDiagnostics] is
    [context.diagnostics]. *)
Definition provideCodeActions (document : TextDocument)
    (contextDiagnostics : list Diagnostic) : list CodeAction :=
  foldl (fun actions diagnostic =>
           if bool_decide (source diagnostic = lit "MongoDB Schema Checker") then
             match truthy (extractModelName (message diagnostic)) with
             | modelName :: _ =>
                 actions ++ [createImportAction document diagnostic modelName
                               DefaultImport]
             | [] => actions
             end
           else actions)
        [] contextDiagnostics.

(** ** The first version of the extension

    [src/extension.ts] is an earlier version of the same scan. It builds the
    same usage pattern and the same binder patterns, tracks no comment
    state, and skips the lines that start with a comment token instead. *)

Module Earlier.

(** Start of line, optional white space, then one of the three tokens that
    start a comment line: two slashes, slash-star, or a star. *)
Definition commentLineRe : regex :=
  LineStart >+> Star true JS.isSpace >+>
  Group 1 (Alt (Lit (lit "//")) (Alt (Lit (lit "/*")) (Lit (lit "*")))).

Fixpoint importsFrom (importedModels : gset jsstring) (lines : list jsstring)
    : gset jsstring :=
  match lines with
  | [] => importedModels
  | line :: lines' =>
      importsFrom
        (addAll (requireNames line) (addAll (es6Names line) importedModels))
        lines'
  end.

Definition getImportedModels (text : jsstring) : gset jsstring :=
  importsFrom ∅ (JS.split newline text).

Fixpoint usagesFrom (modelMethods : list jsstring) (lineIndex : nat)
    (lines : list jsstring) : list Usage :=
  match lines with
  | [] => []
  | line :: lines' =>
      if test requireLineRe line || test importLineRe line then
        usagesFrom modelMethods (S lineIndex) lines'
      else if test commentLineRe line then
        usagesFrom modelMethods (S lineIndex) lines'
      else
        lineUsages modelMethods lineIndex line
        ++ usagesFrom modelMethods (S lineIndex) lines'
  end.

Definition findModelMethodUsages (text : jsstring) (modelMethods : list jsstring)
    : list Usage :=
  usagesFrom modelMethods 0 (JS.split newline text).

Definition scan (text : jsstring) (modelMethods : list jsstring)
    : list Diagnostic :=
  let importedModels := getImportedModels text in
  let modelUsages := findModelMethodUsages text modelMethods in
  foldl (fun diagnostics usage =>
           if decide (modelName usage ∈ importedModels) then diagnostics
           else diagnostics ++ [diagnosticOf usage])
        [] modelUsages.

(** The default of the [modelMethods] setting in the first version. *)
Definition defaultModelMethods : list jsstring :=
  lit <$>
  [ "find"; "findOne"; "findById"; "findOneAndUpdate"; "findByIdAndUpdate";
    "findOneAndDelete"; "findByIdAndDelete"; "findOneAndRemove";
    "findByIdAndRemove"; "create"; "insertMany"; "updateOne"; "updateMany";
    "replaceOne"; "deleteOne"; "deleteMany"; "countDocuments";
    "estimatedDocumentCount"; "aggregate"; "watch" ]%string.

(** [checkDocument] of the first version: the language gate, no size gate.
    [modelMethods] is the value of the setting, [defaultModelMethods] when
    it is not set. *)
Definition checkDocument (modelMethods : list jsstring) (document : TextDocument)
    : option (list Diagnostic) :=
  if negb (bool_decide (languageId document ∈ checkedLanguages)) then None
  else Some (scan (getText document) modelMethods).

End Earlier.

(** ** The vocabulary of the properties *)

(** *** Comment lines

    A line opens a comment span when its trimmed text contains the opening
    token, and closes one when it contains the closing token. *)
Definition opensComment (l : jsstring) : bool :=
  JS.includes (JS.trim l) (lit "/*").

Definition closesComment (l : jsstring) : bool :=
  JS.includes (JS.trim l) (lit "*/").

Definition isLineComment (l : jsstring) : bool :=
  JS.startsWith (JS.trim l) (lit "//").

(** Line [i] lies in a span opened at some line [j], not after [i], when no
    line from [j] up to, but excluding, [i] closes it: the closing line is
    the last line of its span. *)
Definition inCommentSpan (lines : list jsstring) (i : nat) : Prop :=
  ∃ j, j ≤ i < length lines ∧ opensComment <$> lines !! j = Some true
       ∧ ∀ k, j ≤ k < i → closesComment <$> lines !! k = Some false.

Definition isCommentLine (lines : list jsstring) (i : nat) : Prop :=
  isLineComment <$> lines !! i = Some true ∨ inCommentSpan lines i.

(** The comment tracking run over the lines: for each line, whether the
    loops skip it. *)
Fixpoint excludedFrom (inMultiLineComment : bool) (lines : list jsstring)
    : list bool :=
  match lines with
  | [] => []
  | l :: lines' =>
      let '(inMultiLineComment, skip) :=
        trackComment inMultiLineComment (JS.trim l) in
      skip :: excludedFrom inMultiLineComment lines'
  end.

(** The flag is still set at line [i] when it was set at the start and none
    of the lines before [i] closes the comment. *)
Definition openUntil (flag : bool) (lines : list jsstring) (i : nat) : Prop :=
  flag = true ∧ ∀ k, k < i → closesComment <$> lines !! k = Some false.

(** *** The insertion point *)

Definition isImportLine (l : jsstring) : bool := isImportOrRequire (JS.trim l).

(** The line test that stops the loop of [findImportInsertPosition], the
    guard on [lastImportLine] apart: the trimmed line is not empty, does not
    start with two slashes, with slash-star or with a star, and is not an
    import/require line.  The comment part is a test on the first characters
    of the line only.  It is not the comment tracking of the scanner: a line
    inside a block comment that does not start with one of the three tokens
    passes the test, and counts as a real code line here. *)
Definition isRealCodeLine (l : jsstring) : bool :=
  let line := JS.trim l in
  bool_decide (line ≠ [])
  && negb (JS.startsWith line (lit "//") || JS.startsWith line (lit "/*")
           || JS.startsWith line (lit "*"))
  && negb (isImportOrRequire line).

Fixpoint firstIndex (P : jsstring -> bool) (lines : list jsstring) : option nat :=
  match lines with
  | [] => None
  | l :: lines' => if P l then Some 0 else S <$> firstIndex P lines'
  end.

Fixpoint lastIndex (P : jsstring -> bool) (lines : list jsstring) : option nat :=
  match lines with
  | [] => None
  | l :: lines' =>
      match lastIndex P lines' with
      | Some j => Some (S j)
      | None => if P l then Some 0 else None
      end
  end.

Definition lineAfter (lastImport : option nat) : nat :=
  match lastImport with
  | Some l => S l
  | None => 0
  end.

(** The insertion line when the first real code line of the document stops
    the scan: line 0 when no import/require line comes before it, the line
    after the last one that does otherwise.  A real code line is a line that
    passes [isRealCodeLine]. *)
Definition insertLineBeforeFirstCode (lines : list jsstring) : nat :=
  let stop := default (length lines) (firstIndex isRealCodeLine lines) in
  lineAfter (lastIndex isImportLine (take stop lines)).

(** The insertion line when real code stops the scan only once an
    import/require line has been seen: line 0 when the document has no
    import/require line; otherwise the stop is the first line after the first
    import/require line that passes [isRealCodeLine], the test on the first
    characters of the line, and the line after the last import/require line
    before the stop is the result. *)
Definition insertLineAfterImports (lines : list jsstring) : nat :=
  match firstIndex isImportLine lines with
  | None => 0
  | Some f =>
      let stop :=
        match firstIndex isRealCodeLine (drop (S f) lines) with
        | Some c => S f + c
        | None => length lines
        end in
      lineAfter (lastIndex isImportLine (take stop lines))
  end.

(** *** Names and binding statements *)

(** An identifier name made of word characters. *)
Definition isName (s : jsstring) : Prop :=
  s ≠ [] ∧ Forall (fun c => JS.isWord c = true) s.

Definition isDeclarator (kw : jsstring) : Prop :=
  kw = lit "const" ∨ kw = lit "let" ∨ kw = lit "var".

(** An entry of a braced list is a name with an optional rename; [sep] is
    the text between the two, [ as ] in an import and [: ] in a destructured
    require. *)
Definition entry : Type := jsstring * option jsstring.

Definition renderEntry (sep : jsstring) (e : entry) : jsstring :=
  lit " " ++ e.1 ++
  match e.2 with
  | Some alias => sep ++ alias
  | None => []
  end.

(** The text between the braces: the entries separated by commas, each
    preceded by a space, and a space before the closing brace. *)
Fixpoint renderEntries (sep : jsstring) (es : list entry) : jsstring :=
  match es with
  | [] => []
  | [e] => renderEntry sep e ++ lit " "
  | e :: es' => renderEntry sep e ++ lit "," ++ renderEntries sep es'
  end.

Definition isEntry (e : entry) : Prop :=
  isName e.1 ∧ match e.2 with Some alias => isName alias | None => True end.

(** [BinderForm l name]: the line [l] starts with a binding statement of one
    of the five forms, written with single spaces, and [name] is a name it
    binds. *)
Inductive BinderForm : jsstring -> jsstring -> Prop :=
| DefaultImportForm name q tail :
    isName name → isQuote q = true →
    BinderForm (lit "import " ++ name ++ lit " from " ++ q :: tail) name
| NamedImportForm es e q tail :
    Forall isEntry es → e ∈ es → isQuote q = true →
    BinderForm
      (lit "import {" ++ renderEntries (lit " as ") es ++ lit "} from "
       ++ q :: tail)
      e.1
| NamespaceImportForm name q tail :
    isName name → isQuote q = true →
    BinderForm (lit "import * as " ++ name ++ lit " from " ++ q :: tail) name
| SingleRequireForm kw name tail :
    isDeclarator kw → isName name →
    BinderForm (kw ++ lit " " ++ name ++ lit " = require(" ++ tail) name
| DestructuredRequireForm kw es e tail :
    isDeclarator kw → Forall isEntry es → e ∈ es →
    BinderForm
      (kw ++ lit " {" ++ renderEntries (lit ": ") es ++ lit "} = require("
       ++ tail)
      e.1.

(** *** Positions and runs of the matcher *)

(** The first character after a position is not in [p]: a greedy run of
    [p] ends there. *)
Definition stops (p : char -> bool) (rest : jsstring) : Prop :=
  match rest with
  | c :: _ => p c = false
  | [] => True
  end.

(** [st'] is [st] moved forward over [s]. *)
Definition advances (st st' : pos) (s : jsstring) : Prop :=
  before st' = reverse s ++ before st ∧ after st = s ++ after st'.

(** The capturing groups of a pattern. *)
Fixpoint groupsOf (r : regex) : list nat :=
  match r with
  | Seq r1 r2 | Alt r1 r2 => groupsOf r1 ++ groupsOf r2
  | Group n r => n :: groupsOf r
  | _ => []
  end.

Definition allSpace (ws : jsstring) : Prop :=
  Forall (fun c => JS.isSpace c = true) ws.

(** Neither the first nor the last character is white space. *)
Definition trimmed (s : jsstring) : Prop :=
  stops JS.isSpace s ∧ stops JS.isSpace (reverse s).

(** *** Example documents *)

Definition javascriptDocument (text : jsstring) : TextDocument :=
  mkTextDocument (lit "file:///a.js") (lit "javascript") text.

Definition warningAt (l c1 c2 : nat) (modelName : jsstring) : Diagnostic :=
  {| range := mkRange (mkPosition l c1) (mkPosition l c2);
     message := notImportedMessage modelName;
     severity := Warning;
     code := lit "missing-model-import";
     source := lit "MongoDB Schema Checker" |}.

(** Scenario A: a function body that calls [User.updateOne]. *)
Definition scenarioA : jsstring :=
  lit "async function f() {" ++ [newline]
  ++ lit "  await User.updateOne({}, {});" ++ [newline]
  ++ lit "}".

(** Scenario D: a destructured require with a rename, then a call on the
    alias. *)
Definition scenarioD : jsstring :=
  lit "const { A, B: C } = require(" ++ [dquote] ++ lit "./models" ++ [dquote]
  ++ lit ");" ++ [newline]
  ++ lit "await C.find({});".

(** A code line before the first import. *)
Definition codeThenImport : jsstring :=
  lit "foo();" ++ [newline]
  ++ lit "import X from 'x';" ++ [newline]
  ++ lit "bar();".

(** Usages inside a block comment and on a comment line, and one in code. *)
Definition commentedText : jsstring :=
  lit "/*" ++ [newline]
  ++ lit "await Ghost.find({});" ++ [newline]
  ++ lit "*/" ++ [newline]
  ++ lit "// await Ghost.find({});" ++ [newline]
  ++ lit "await Real.find({});".

(** A usage on the line before the import of its model. *)
Definition useBeforeImport : jsstring :=
  lit "await User.find({});" ++ [newline]
  ++ lit "import User from './models/User';".

(** An import statement inside a string literal, and a call on the model. *)
Definition importInString : jsstring :=
  lit "const s = " ++ [dquote] ++ lit "import User from './models/User'"
  ++ [dquote] ++ lit ";" ++ [newline]
  ++ lit "User.find();".

(** Two import statements on one line, and a call on the second model. *)
Definition twoImports : jsstring :=
  lit "import Y from 'a'; import X from 'b';" ++ [newline]
  ++ lit "X.find();".

(** *** Usages, skipped lines and the quick fix *)

(** A capitalized name: an uppercase letter, then word characters. *)
Definition capitalized (name : jsstring) : Prop :=
  ∃ c s, name = c :: s ∧ JS.isUpper c = true
         ∧ Forall (fun x => JS.isWord x = true) s.

(** The text a position belongs to. *)
Definition subject (st : pos) : jsstring := reverse (before st) ++ after st.

(** One usage comes before another: on an earlier line, or on the same line
    and ending before the other starts. *)
Definition rangeBefore (r1 r2 : Range) : Prop :=
  line (start r1) < line (start r2)
  ∨ line (start r1) = line (start r2)
    ∧ character (end_ r1) < character (start r2).

(** The actions one diagnostic gives rise to. *)
Definition actionsFor (document : TextDocument) (d : Diagnostic) : list CodeAction :=
  if bool_decide (source d = lit "MongoDB Schema Checker") then
    match truthy (extractModelName (message d)) with
    | modelName :: _ => [createImportAction document d modelName DefaultImport]
    | [] => []
    end
  else [].

(** A line that [findModelMethodUsages] passes over as an import or require
    statement: the keyword [import] after optional white space and followed
    by white space, or a declaring keyword followed, later on the line, by
    an equals sign and [require]. *)
Inductive StatementLine : jsstring -> Prop :=
| ImportStatementLine ws c rest :
    allSpace ws → JS.isSpace c = true →
    StatementLine (ws ++ lit "import" ++ c :: rest)
| RequireStatementLine ws kw sp mid sp2 rest :
    allSpace ws →
    kw ∈ [lit "import"; lit "const"; lit "let"; lit "var"] →
    sp ≠ [] → allSpace sp →
    Forall (fun c => JS.isDot c = true) mid → stops JS.isSpace (mid ++ lit "=") →
    allSpace sp2 →
    StatementLine
      (ws ++ kw ++ sp ++ mid ++ lit "=" ++ sp2 ++ lit "require" ++ rest).

(** A line that the first version passes over as a comment. *)
Inductive CommentPrefixed : jsstring -> Prop :=
| CommentPrefixedLine ws tok rest :
    allSpace ws → tok ∈ [lit "//"; lit "/*"; lit "*"] →
    CommentPrefixed (ws ++ tok ++ rest).

(** A position, and a range, one line further down. *)
Definition positionDown (p : Position) : Position :=
  mkPosition (S (line p)) (character p).

Definition rangeDown (r : Range) : Range :=
  mkRange (positionDown (start r)) (positionDown (end_ r)).

(** A usage, and a diagnostic, one line further down. *)
Definition usageDown (u : Usage) : Usage :=
  mkUsage (rangeDown (usageRange u)) (modelName u) (methodName u).

Definition lineDown (d : Diagnostic) : Diagnostic :=
  {| range := rangeDown (range d);
     message := message d;
     severity := severity d;
     code := code d;
     source := source d |}.

(** The text has no [x]. *)
Definition without (x : char) (s : jsstring) : Prop :=
  Forall (fun c => (c =? x)%N = false) s.

(** A document whose first line is a call on [User]. *)
Definition callOnly : jsstring := lit "User.find();".

(** The same document after the quick fix. *)
Definition callAfterImport : jsstring :=
  lit "import User from " ++ [dquote] ++ lit "./models/User" ++ [dquote]
  ++ lit ";" ++ [newline] ++ lit "User.find();".

(** Two imports around a block comment, then a call.  The line [note] is
    inside the comment and starts with none of the comment tokens. *)
Definition importsAroundComment : jsstring :=
  lit "import A from 'a';" ++ [newline]
  ++ lit "/*" ++ [newline]
  ++ lit "note" ++ [newline]
  ++ lit "*/" ++ [newline]
  ++ lit "import B from 'b';" ++ [newline]
  ++ lit "X.find();".

(** A call on a method that only the later default list has. *)
Definition saveCall : jsstring := lit "User.save();".

(** The settings with [modelMethods] set by the user. *)
Definition configuredMethods : Configuration :=
  {| checkOnType := true;
     skipLargeFiles := true;
     maxFileSize := 100000%Z;
     modelMethods := lit <$> [ "find"; "updateOne" ]%string |}.

(** * Properties *)

(** ** The end-to-end scenarios *)

(** C3. Scenario A scanned with the default configuration gives exactly one
    diagnostic: its usage has model name [User], its range is columns 8 to
    12 of line 1, and its message is the not-imported message for [User]. *)
Theorem scenarioA_one_finding :
  findModelMethodUsages scenarioA defaultModelMethods
  = [ mkUsage (mkRange (mkPosition 1 8) (mkPosition 1 12))
        (lit "User") (lit "updateOne") ]
  ∧ checkDocument defaultConfiguration (javascriptDocument scenarioA)
    = Some [ warningAt 1 8 12 (lit "User") ]
  ∧ message (warningAt 1 8 12 (lit "User"))
    = lit "Model 'User' is not imported. Please import the model before using it.".
Proof. repeat split; vm_compute; reflexivity. Qed.

(** C1, as stated, fails: scenario D does not give zero diagnostics. *)
Lemma scenarioD_not_zero :
  checkDocument defaultConfiguration (javascriptDocument scenarioD) ≠ Some [].
Proof. vm_compute. discriminate. Qed.

(** C1, amended. In scenario D the destructured require binds the keys [A]
    and [B], not the alias [C]; the scan with the default configuration
    gives exactly one diagnostic, for [C], at columns 6 to 7 of line 1. *)
Theorem scenarioD_one_finding :
  getImportedModels scenarioD = {[ lit "A"; lit "B" ]}
  ∧ checkDocument defaultConfiguration (javascriptDocument scenarioD)
    = Some [ warningAt 1 6 7 (lit "C") ].
Proof. split; vm_compute; reflexivity. Qed.

(** ** The empty allowlist *)

(** C2. With an empty allowlist the method group of the pattern is empty, and
    an empty group matches at any position: a capitalized identifier followed
    by a dot and a word character is reported. The text [User.find()] gives
    one diagnostic, in both versions of the extension. *)
Theorem empty_allowlist_reports :
  methodsPattern [] = Empty
  ∧ scan (lit "User.find()") [] = [ warningAt 0 0 4 (lit "User") ]
  ∧ Earlier.scan (lit "User.find()") [] = [ warningAt 0 0 4 (lit "User") ].
Proof. repeat split; vm_compute; reflexivity. Qed.

(** ** The insertion point of the fix *)

Section InsertPosition.

Implicit Types (l : jsstring) (lines : list jsstring) (P : jsstring -> bool).

Lemma lastIndex_app P lines1 lines2 :
  lastIndex P (lines1 ++ lines2)
  = match lastIndex P lines2 with
    | Some j => Some (length lines1 + j)
    | None => lastIndex P lines1
    end.
Proof.
  induction lines1 as [|x lines1 IH]; simpl.
  - by destruct (lastIndex P lines2).
  - rewrite IH. by destruct (lastIndex P lines2).
Qed.

Lemma firstIndex_Some P lines f :
  firstIndex P lines = Some f →
  ∃ l, lines !! f = Some l ∧ P l = true
       ∧ lastIndex P (take (S f) lines) = Some f.
Proof.
  revert f. induction lines as [|x lines IH]; intros f; simpl; [done|].
  destruct (P x) eqn:HP.
  - intros [= <-]. exists x. rewrite take_0. simpl. by rewrite HP.
  - destruct (firstIndex P lines) as [f'|] eqn:Hf; simpl; [|done].
    intros [= <-]. destruct (IH f' eq_refl) as (l & Hl & HPl & Hlast).
    exists l. split; [done|]. split; [done|].
    change (take (S (S f')) (x :: lines)) with (x :: take (S f') lines).
    simpl. simpl in Hlast. by rewrite Hlast.
Qed.

(** The condition of the [break] is: a real code line, and an import
    already seen. *)
Lemma break_condition l last :
  (bool_decide (JS.trim l ≠ [])
   && negb (JS.startsWith (JS.trim l) (lit "import "))
   && negb (JS.startsWith (JS.trim l) (lit "//"))
   && negb (JS.startsWith (JS.trim l) (lit "/*"))
   && negb (JS.startsWith (JS.trim l) (lit "*"))
   && negb (test requireAssignRe (JS.trim l))
   && (0 <=? last)%Z)
  = isRealCodeLine l && (0 <=? last)%Z.
Proof.
  unfold isRealCodeLine, isImportOrRequire.
  destruct (bool_decide _), (JS.startsWith _ (lit "import ")),
    (JS.startsWith _ (lit "//")), (JS.startsWith _ (lit "/*")),
    (JS.startsWith _ (lit "*")), (test _ _); reflexivity.
Qed.

Lemma lastImportLineFrom_cons last i l lines :
  lastImportLineFrom last i (l :: lines)
  = let last' := if isImportLine l then Z.of_nat i else last in
    if isRealCodeLine l && (0 <=? last')%Z then last'
    else lastImportLineFrom last' (S i) lines.
Proof. cbn [lastImportLineFrom]. cbv zeta. by rewrite break_condition. Qed.

Lemma isRealCodeLine_not_import l :
  isRealCodeLine l = true → isImportLine l = false.
Proof.
  unfold isRealCodeLine, isImportLine. destruct (isImportOrRequire _); [|done].
  by rewrite andb_false_r.
Qed.

(** Once an import has been seen, the loop runs to the first real code
    line and keeps the last import line before it. *)
Lemma lastImportLineFrom_seen lines : ∀ i last,
  (0 ≤ last)%Z →
  lastImportLineFrom last i lines
  = match lastIndex isImportLine
            (take (default (length lines) (firstIndex isRealCodeLine lines))
               lines) with
    | Some j => Z.of_nat (i + j)
    | None => last
    end.
Proof.
  induction lines as [|l lines IH]; intros i last Hlast; [done|].
  rewrite lastImportLineFrom_cons. cbv zeta. cbn [firstIndex].
  destruct (isRealCodeLine l) eqn:Hreal.
  - rewrite (isRealCodeLine_not_import _ Hreal). simpl.
    by rewrite (proj2 (Z.leb_le 0 last) Hlast).
  - rewrite andb_false_l.
    assert (default (length (l :: lines)) (S <$> firstIndex isRealCodeLine lines)
            = S (default (length lines) (firstIndex isRealCodeLine lines))) as ->.
    { by destruct (firstIndex isRealCodeLine lines). }
    cbn [take lastIndex]. rewrite IH; [|destruct (isImportLine l); lia].
    destruct (lastIndex isImportLine _) as [j|].
    + f_equal. lia.
    + destruct (isImportLine l); [f_equal; lia|done].
Qed.

(** Before any import has been seen, real code does not stop the loop. *)
Lemma lastImportLineFrom_unseen lines : ∀ i,
  lastImportLineFrom (-1) i lines
  = match firstIndex isImportLine lines with
    | Some f =>
        lastImportLineFrom (Z.of_nat (i + f)) (S (i + f)) (drop (S f) lines)
    | None => (-1)%Z
    end.
Proof.
  induction lines as [|l lines IH]; intros i; [done|].
  rewrite lastImportLineFrom_cons. cbv zeta. cbn [firstIndex].
  destruct (isImportLine l) eqn:Himp.
  - assert (isRealCodeLine l = false) as ->.
    { destruct (isRealCodeLine l) eqn:Hr; [|done].
      by rewrite (isRealCodeLine_not_import _ Hr) in Himp. }
    simpl. by rewrite Nat.add_0_r.
  - rewrite andb_false_r, IH.
    destruct (firstIndex isImportLine lines) as [f|]; [|done].
    simpl. by rewrite Nat.add_succ_r.
Qed.

End InsertPosition.

(** C7, as stated, fails: with a code line before the first import, the
    insertion point is not the one given by the first real code line of the
    document. *)
Lemma insert_position_code_first :
  findImportInsertPosition (javascriptDocument codeThenImport)
  ≠ mkPosition (insertLineBeforeFirstCode (JS.split newline codeThenImport)) 0.
Proof. vm_compute. discriminate. Qed.

(** C7, amended. If no line of the document is an import/require line, the
    insertion point is line 0, column 0. Otherwise it is column 0 of the line
    after the last import/require line found before the first stopping line
    that follows the first import/require line. A stopping line is a line
    whose trimmed text is not empty, does not start with two slashes, with
    slash-star or with a star, and is not an import/require line: the
    comment test is on the first characters of the line, and a line inside
    a block comment that starts with none of the three tokens stops the
    scan. A line met before any import/require line never stops it. *)
Theorem insert_position_after_imports (document : TextDocument) :
  findImportInsertPosition document
  = mkPosition (insertLineAfterImports (JS.split newline (getText document))) 0.
Proof.
  unfold findImportInsertPosition, insertLineAfterImports.
  generalize (JS.split newline (getText document)). intros lines.
  rewrite lastImportLineFrom_unseen.
  destruct (firstIndex isImportLine lines) as [f|] eqn:Hf; [|done].
  destruct (firstIndex_Some _ _ _ Hf) as (l & Hl & HPl & Hlast).
  rewrite lastImportLineFrom_seen by lia.
  set (rest := drop (S f) lines).
  assert (∀ c, lastIndex isImportLine (take (S f + c) lines)
               = match lastIndex isImportLine (take c rest) with
                 | Some j => Some (S f + j)
                 | None => Some f
                 end) as Hsplit.
  { intros c. subst rest. rewrite <- take_take_drop, lastIndex_app, Hlast.
    rewrite length_take_le; [done|]. apply lookup_lt_Some in Hl. lia. }
  assert (lastIndex isImportLine
            (take match firstIndex isRealCodeLine rest with
                  | Some c => S f + c
                  | None => length lines
                  end lines)
          = match lastIndex isImportLine
                    (take (default (length rest) (firstIndex isRealCodeLine rest))
                       rest) with
            | Some j => Some (S f + j)
            | None => Some f
            end) as ->.
  { destruct (firstIndex isRealCodeLine rest) as [c|]; simpl; [apply Hsplit|].
    rewrite <- Hsplit. f_equal. rewrite !take_ge; [done| |done].
    subst rest. rewrite length_drop. lia. }
  destruct (lastIndex isImportLine (take _ rest)) as [j|]; simpl.
  - f_equal. lia.
  - rewrite (proj2 (Z.leb_le 0 _) (Nat2Z.is_nonneg f)). f_equal. lia.
Qed.

(** The stopping test is not the comment tracking of the scanner. In
    [importsAroundComment] line 2 is a comment line for the scanner, yet it
    stops the scan for the insertion point, which is line 1 and not the line
    after the second import. *)
Lemma insert_position_prefix_test :
  isCommentLine (JS.split newline importsAroundComment) 2
  ∧ isRealCodeLine (lit "note") = true
  ∧ findImportInsertPosition (javascriptDocument importsAroundComment)
    = mkPosition 1 0
  ∧ lastIndex isImportLine (JS.split newline importsAroundComment) = Some 4.
Proof.
  split; [|repeat split; vm_compute; reflexivity].
  right. exists 1. split; [vm_compute; lia|]. split; [reflexivity|].
  intros k Hk. assert (k = 1) as -> by lia. reflexivity.
Qed.

(** ** The synthesized fix *)

(** C8. The fix depends on the text of the document and on the model name
    only: two calls on documents with the same text, whatever the
    diagnostics they are given, insert the same text at the same position.
    The text is the default import of the model from its file under
    [./models/], followed by a newline, and the column is 0. *)
Theorem createImportAction_deterministic
    (document1 document2 : TextDocument) (diagnostic1 diagnostic2 : Diagnostic)
    (name : jsstring) :
  getText document1 = getText document2 →
  let fix1 := createImportAction document1 diagnostic1 name DefaultImport in
  let fix2 := createImportAction document2 diagnostic2 name DefaultImport in
  title fix1 = title fix2
  ∧ (editPosition <$> edit fix1) = (editPosition <$> edit fix2)
  ∧ (newText <$> edit fix1) = (newText <$> edit fix2)
  ∧ (newText <$> edit fix1)
    = [ lit "import " ++ name ++ lit " from " ++ [dquote] ++ lit "./models/"
        ++ name ++ [dquote] ++ lit ";" ++ [newline] ]
  ∧ (character ∘ editPosition <$> edit fix1) = [0].
Proof.
  intros Htext. simpl. unfold findImportInsertPosition. rewrite Htext.
  repeat split. by case_match.
Qed.

Lemma createImportAction_deterministic_witness :
  let document1 := javascriptDocument scenarioA in
  let document2 := mkTextDocument (lit "file:///b.ts") (lit "typescript") scenarioA in
  let fix1 :=
    createImportAction document1 (warningAt 1 8 12 (lit "User")) (lit "User")
      DefaultImport in
  let fix2 :=
    createImportAction document2 (warningAt 0 0 0 (lit "Other")) (lit "User")
      DefaultImport in
  getText document1 = getText document2
  ∧ title fix1 = title fix2
  ∧ (editPosition <$> edit fix1) = (editPosition <$> edit fix2)
  ∧ (newText <$> edit fix1) = (newText <$> edit fix2)
  ∧ (newText <$> edit fix1)
    = [ lit "import " ++ lit "User" ++ lit " from " ++ [dquote]
        ++ lit "./models/" ++ lit "User" ++ [dquote] ++ lit ";" ++ [newline] ]
  ∧ (character ∘ editPosition <$> edit fix1) = [0].
Proof.
  intros document1 document2 fix1 fix2. split; [reflexivity|].
  apply (createImportAction_deterministic document1 document2). reflexivity.
Defined.

(** ** The comment tracker *)

Section CommentTracker.

Implicit Types (l : jsstring) (lines : list jsstring) (flag : bool).

Lemma openUntil_cons flag l lines i :
  openUntil flag (l :: lines) (S i)
  ↔ closesComment l = false ∧ openUntil flag lines i.
Proof.
  unfold openUntil. split.
  - intros [Hf Hk]. split; [|split; [done|]].
    + specialize (Hk 0 ltac:(lia)). simpl in Hk. by injection Hk.
    + intros k Hlt. apply (Hk (S k)). lia.
  - intros [Hc [Hf Hk]]. split; [done|]. intros [|k] Hlt; simpl.
    + by rewrite Hc.
    + apply Hk. lia.
Qed.

Lemma inCommentSpan_here l lines :
  inCommentSpan (l :: lines) 0 ↔ opensComment l = true.
Proof.
  unfold inCommentSpan. split.
  - intros (j & Hj & Hopen & _). assert (j = 0) as -> by lia.
    simpl in Hopen. by injection Hopen.
  - intros Hopen. exists 0. split; [simpl; lia|].
    split; [simpl; by rewrite Hopen|]. intros k Hk. lia.
Qed.

Lemma inCommentSpan_later l lines i :
  i < length lines →
  inCommentSpan (l :: lines) (S i)
  ↔ openUntil (opensComment l) (l :: lines) (S i) ∨ inCommentSpan lines i.
Proof.
  intros Hi. unfold inCommentSpan, openUntil. split.
  - intros (j & Hj & Hopen & Hclose). destruct j as [|j].
    + left. simpl in Hopen. injection Hopen as Hopen. split; [done|].
      intros k Hk. apply Hclose. lia.
    + right. exists j. split; [lia|]. split; [done|].
      intros k Hk. apply (Hclose (S k)). lia.
  - intros [[Hopen Hclose]|(j & Hj & Hopen & Hclose)].
    + exists 0. split; [simpl; lia|]. split; [simpl; by rewrite Hopen|].
      intros k Hk. apply Hclose. lia.
    + exists (S j). split; [simpl; lia|]. split; [done|].
      intros [|k] Hk; [lia|]. apply Hclose. lia.
Qed.

Lemma trackComment_eq flag l :
  trackComment flag (JS.trim l)
  = ((opensComment l || flag) && negb (closesComment l),
     opensComment l || flag || isLineComment l).
Proof.
  unfold trackComment, opensComment, closesComment, isLineComment.
  destruct (JS.includes _ (lit "/*")), flag, (JS.includes _ (lit "*/")); reflexivity.
Qed.

(** What the tracker decides for each line. *)
Lemma excludedFrom_lookup lines : ∀ flag i l,
  lines !! i = Some l →
  ∃ skip, excludedFrom flag lines !! i = Some skip
          ∧ (skip = true
             ↔ openUntil flag lines i ∨ inCommentSpan lines i
               ∨ isLineComment l = true).
Proof.
  induction lines as [|l0 lines IH]; intros flag i l Hl; [done|].
  cbn [excludedFrom]. rewrite trackComment_eq.
  destruct i as [|i]; simpl in Hl.
  - injection Hl as ->. eexists. split; [reflexivity|].
    rewrite inCommentSpan_here. unfold openUntil.
    destruct (opensComment l), flag, (isLineComment l); simpl; split;
      try done; try tauto; try (intros _; left; split; [done|intros; lia]).
  - destruct (IH ((opensComment l0 || flag) && negb (closesComment l0)) i l Hl)
      as (skip & Hskip & Hiff).
    exists skip. split; [done|].
    rewrite Hiff, inCommentSpan_later, !openUntil_cons
      by (by apply lookup_lt_Some in Hl).
    unfold openUntil.
    destruct (opensComment l0), flag, (closesComment l0); simpl; split;
      intros; intuition congruence.
Qed.

Lemma comment_line_excluded lines i :
  isCommentLine lines i → excludedFrom false lines !! i = Some true.
Proof.
  intros Hc.
  assert (∃ l, lines !! i = Some l) as [l Hl].
  { destruct Hc as [Hc|(j & Hj & _)].
    - destruct (lines !! i); [eauto|done].
    - apply lookup_lt_is_Some. lia. }
  destruct (excludedFrom_lookup lines false i l Hl) as (skip & Hskip & Hiff).
  rewrite Hskip. f_equal. apply Hiff. destruct Hc as [Hc|Hc]; [|tauto].
  right. right. rewrite Hl in Hc. by injection Hc.
Qed.

Lemma code_line_scanned lines i l :
  lines !! i = Some l → ¬ isCommentLine lines i →
  excludedFrom false lines !! i = Some false.
Proof.
  intros Hl Hc.
  destruct (excludedFrom_lookup lines false i l Hl) as (skip & Hskip & Hiff).
  rewrite Hskip. f_equal. destruct skip; [|done]. exfalso. apply Hc.
  destruct (proj1 Hiff eq_refl) as [[? _]|[?|?]]; [done|by right|].
  left. by rewrite Hl; simpl; f_equal.
Qed.

End CommentTracker.

(** ** The two loops and the reconciler *)

Section Reconciler.

Implicit Types (l text : jsstring) (lines methods : list jsstring) (flag : bool).

Lemma elem_of_usagesFrom methods lines : ∀ flag idx u,
  u ∈ usagesFrom methods flag idx lines →
  ∃ i l, lines !! i = Some l
         ∧ excludedFrom flag lines !! i = Some false
         ∧ u ∈ lineUsages methods (idx + i) l.
Proof.
  induction lines as [|l lines IH]; intros flag idx u; cbn [usagesFrom excludedFrom].
  - by intros ?%elem_of_nil.
  - destruct (trackComment flag (JS.trim l)) as [flag' skip].
    assert (u ∈ usagesFrom methods flag' (S idx) lines →
            ∃ i l', (l :: lines) !! i = Some l'
                    ∧ (skip :: excludedFrom flag' lines) !! i = Some false
                    ∧ u ∈ lineUsages methods (idx + i) l') as Hrest.
    { intros (i & l' & Hl' & Hex & Hu)%IH. exists (S i), l'.
      by rewrite Nat.add_succ_r. }
    destruct skip; [done|]. case_match; [done|].
    intros [Hu|Hu]%elem_of_app; [|by apply Hrest].
    exists 0, l. by rewrite Nat.add_0_r.
Qed.

Lemma lineUsages_line methods n l u :
  u ∈ lineUsages methods n l → line (start (usageRange u)) = n.
Proof. unfold lineUsages. by intros (m & -> & _)%list_elem_of_fmap. Qed.

Lemma report_loop (imported : gset jsstring) (usages : list Usage) :
  ∀ acc : list Diagnostic,
  foldl (fun diagnostics usage =>
           if decide (modelName usage ∈ imported) then diagnostics
           else diagnostics ++ [diagnosticOf usage])
        acc usages
  = acc ++ (diagnosticOf <$> filter (fun usage => modelName usage ∉ imported) usages).
Proof.
  induction usages as [|u usages IH]; intros acc; simpl.
  - by rewrite app_nil_r.
  - rewrite IH, filter_cons. case_decide; case_decide; try done.
    by rewrite <- app_assoc.
Qed.

Lemma scan_eq text methods :
  scan text methods
  = diagnosticOf <$>
      filter (fun usage => modelName usage ∉ getImportedModels text)
        (findModelMethodUsages text methods).
Proof. unfold scan. by rewrite report_loop. Qed.

Lemma elem_of_scan text methods d :
  d ∈ scan text methods →
  ∃ usage, usage ∈ findModelMethodUsages text methods
           ∧ (modelName usage ∉ getImportedModels text)
           ∧ d = diagnosticOf usage.
Proof.
  rewrite scan_eq. intros (u & -> & Hu)%list_elem_of_fmap.
  apply list_elem_of_filter in Hu as [Hn Hu]. eauto.
Qed.

Lemma elem_of_addAll names : ∀ (imported : gset jsstring) name,
  name ∈ addAll names imported ↔ name ∈ names ∨ name ∈ imported.
Proof.
  unfold addAll. induction names as [|n names IH]; intros imported name; simpl.
  - rewrite elem_of_nil. tauto.
  - rewrite IH, elem_of_cons, elem_of_union, elem_of_singleton. tauto.
Qed.

Lemma importsFrom_mono lines : ∀ flag (imported : gset jsstring) name,
  name ∈ imported → name ∈ importsFrom flag imported lines.
Proof.
  induction lines as [|l lines IH]; intros flag imported name Hin; [done|].
  cbn [importsFrom]. destruct (trackComment flag (JS.trim l)) as [flag' skip].
  destruct skip; apply IH; [done|]. rewrite !elem_of_addAll. tauto.
Qed.

Lemma importsFrom_binds lines : ∀ flag (imported : gset jsstring) i l name,
  lines !! i = Some l →
  excludedFrom flag lines !! i = Some false →
  name ∈ es6Names l ++ requireNames l →
  name ∈ importsFrom flag imported lines.
Proof.
  induction lines as [|l0 lines IH]; intros flag imported i l name Hl Hex Hname;
    [done|].
  cbn [importsFrom]. cbn [excludedFrom] in Hex.
  destruct (trackComment flag (JS.trim l0)) as [flag' skip].
  destruct i as [|i]; simpl in Hl, Hex.
  - injection Hl as ->. injection Hex as ->. apply importsFrom_mono.
    rewrite !elem_of_addAll. apply elem_of_app in Hname. tauto.
  - destruct skip; by eapply IH.
Qed.

Lemma notImportedMessage_inj name1 name2 :
  notImportedMessage name1 = notImportedMessage name2 → name1 = name2.
Proof.
  unfold notImportedMessage. intros H. apply app_inv_head in H.
  by apply app_inv_tail in H.
Qed.

End Reconciler.

(** ** Comment suppression *)

(** C6. No diagnostic is located on a comment line: a line whose trimmed text
    starts with [//], or a line of a span opened by a line that contains the
    opening token, up to and including the first line from there that
    contains the closing token. *)
Theorem comment_lines_not_reported (text : jsstring) (methods : list jsstring)
    (i : nat) :
  isCommentLine (JS.split newline text) i →
  Forall (fun d => line (start (range d)) ≠ i) (scan text methods).
Proof.
  intros Hc. apply Forall_forall. intros d (u & Hu & _ & ->)%elem_of_scan.
  apply elem_of_usagesFrom in Hu as (j & l & Hl & Hex & Hu).
  apply lineUsages_line in Hu. simpl in *. rewrite Hu. intros <-.
  apply comment_line_excluded in Hc. congruence.
Qed.

Lemma comment_lines_not_reported_witness :
  isCommentLine (JS.split newline commentedText) 1
  ∧ Forall (fun d => line (start (range d)) ≠ 1)
      (scan commentedText defaultModelMethods).
Proof.
  assert (isCommentLine (JS.split newline commentedText) 1) as Hc.
  { right. exists 0. split; [vm_compute; lia|]. split; [reflexivity|].
    intros k Hk. assert (k = 0) as -> by lia. reflexivity. }
  split; [exact Hc|].
  exact (comment_lines_not_reported commentedText defaultModelMethods 1 Hc).
Defined.

(** ** Names bound on a scanned line *)

(** A name that the binder extracts from a scanned line is bound for the
    whole file, and no diagnostic is about it. *)
Lemma line_binding_suppresses (text : jsstring) (methods : list jsstring)
    (i : nat) (l name : jsstring) :
  JS.split newline text !! i = Some l →
  ¬ isCommentLine (JS.split newline text) i →
  name ∈ es6Names l ++ requireNames l →
  name ∈ getImportedModels text
  ∧ Forall (fun d => message d ≠ notImportedMessage name) (scan text methods).
Proof.
  intros Hl Hc Hname.
  assert (name ∈ getImportedModels text) as Hin.
  { eapply importsFrom_binds; [done| |done]. by eapply code_line_scanned. }
  split; [done|]. apply Forall_forall. intros d (u & _ & Hu & ->)%elem_of_scan.
  simpl. intros Heq%notImportedMessage_inj. by rewrite Heq in Hu.
Qed.

(** ** Character classes *)

Ltac charclass :=
  unfold isQuote, notRBrace, JS.isWord, JS.isSpace, JS.isDot, JS.isUpper,
    JS.isLower, JS.isDigit, dquote, newline in *;
  repeat match goal with
    | H : _ = true |- _ =>
        first [ apply orb_true_iff in H | apply andb_true_iff in H
              | apply negb_true_iff in H
              | apply N.leb_le in H | apply N.eqb_eq in H ]
    | H : _ = false |- _ =>
        first [ apply orb_false_iff in H | apply andb_false_iff in H
              | apply negb_false_iff in H
              | apply N.leb_gt in H | apply N.eqb_neq in H ]
    | H : _ ∧ _ |- _ => destruct H
    | H : _ ∨ _ |- _ => destruct H
    end;
  repeat first
    [ rewrite orb_true_iff | rewrite andb_true_iff | rewrite negb_true_iff
    | rewrite orb_false_iff | rewrite andb_false_iff | rewrite negb_false_iff
    | rewrite N.leb_le | rewrite N.eqb_eq | rewrite N.leb_gt | rewrite N.eqb_neq ];
  try lia.

Lemma isWord_not_space c : JS.isWord c = true → JS.isSpace c = false.
Proof. intros H. charclass. Qed.

Lemma isUpper_isWord c : JS.isUpper c = true → JS.isWord c = true.
Proof. intros H. charclass. Qed.

Lemma isWord_notRBrace c : JS.isWord c = true → notRBrace c = true.
Proof. intros H. charclass. Qed.

Lemma isWord_not_comma c : JS.isWord c = true → (c =? 44)%N = false.
Proof. intros H. charclass. Qed.

(** ** The matcher *)

Section Matcher.

Context {R : Type}.
Implicit Types (r : regex) (st : pos) (caps : captures) (k : cont R)
  (p : char -> bool) (s pre rest : jsstring).

Lemma run_Seq r1 r2 st caps k :
  run (r1 >+> r2) st caps k = run r1 st caps (fun st' caps' => run r2 st' caps' k).
Proof. reflexivity. Qed.

Lemma run_Group n r st caps k :
  run (Group n r) st caps k
  = run r st caps (fun st' caps' => k st' (capture n (consumed st st') caps')).
Proof. reflexivity. Qed.

Lemma run_Chr p pre rest caps k :
  run (Chr p) (Pos pre rest) caps k
  = match rest with
    | c :: rest' => if p c then k (Pos (c :: pre) rest') caps else None
    | [] => None
    end.
Proof. reflexivity. Qed.

Lemma run_Star_greedy p pre rest caps k :
  run (Star true p) (Pos pre rest) caps k = starGreedy p pre rest caps k.
Proof. reflexivity. Qed.

Lemma run_WordBoundary pre rest caps k :
  run WordBoundary (Pos pre rest) caps k
  = if xorb (isWordAt pre) (isWordAt rest) then k (Pos pre rest) caps else None.
Proof. reflexivity. Qed.

Lemma run_Lit s : ∀ pre rest caps k,
  run (Lit s) (Pos pre (s ++ rest)) caps k = k (Pos (reverse s ++ pre) rest) caps.
Proof.
  induction s as [|c s IH]; intros pre rest caps k; [done|].
  cbn [Lit app]. rewrite run_Seq. cbn [run after before]. rewrite N.eqb_refl, IH.
  by rewrite reverse_cons, <- app_assoc.
Qed.

Lemma run_Chr_fail p r c pre rest caps k :
  p c = false → run (Chr p >+> r) (Pos pre (c :: rest)) caps k = None.
Proof. intros Hp. rewrite run_Seq. cbn [run after]. by rewrite Hp. Qed.

(** A greedy star takes the whole run of [p] when what follows accepts. *)
Lemma starGreedy_all p s : ∀ pre rest caps k res,
  Forall (fun c => p c = true) s →
  stops p rest →
  k (Pos (reverse s ++ pre) rest) caps = Some res →
  starGreedy p pre (s ++ rest) caps k = Some res.
Proof.
  induction s as [|c s IH]; intros pre rest caps k res Hs Hstop Hk.
  - destruct rest as [|c rest]; [done|]. cbn [app starGreedy].
    simpl in Hstop. by rewrite Hstop.
  - apply Forall_cons in Hs as [Hc Hs]. cbn [app starGreedy]. rewrite Hc.
    rewrite (IH (c :: pre) rest caps k res); [done|done|done|].
    by rewrite reverse_cons, <- app_assoc in Hk.
Qed.

Lemma run_Star_all p s pre rest caps k res :
  Forall (fun c => p c = true) s →
  stops p rest →
  k (Pos (reverse s ++ pre) rest) caps = Some res →
  run (Star true p) (Pos pre (s ++ rest)) caps k = Some res.
Proof. intros. cbn [run before after]. by apply starGreedy_all. Qed.

Lemma run_Plus_all p s pre rest caps k res :
  s ≠ [] →
  Forall (fun c => p c = true) s →
  stops p rest →
  k (Pos (reverse s ++ pre) rest) caps = Some res →
  run (Plus p) (Pos pre (s ++ rest)) caps k = Some res.
Proof.
  intros Hne Hs Hstop Hk. destruct s as [|c s]; [done|].
  apply Forall_cons in Hs as [Hc Hs]. unfold Plus. rewrite run_Seq.
  cbn [run app after before]. rewrite Hc. apply starGreedy_all; [done|done|].
  by rewrite reverse_cons, <- app_assoc in Hk.
Qed.

Lemma run_Alt_l r1 r2 st caps k res :
  run r1 st caps k = Some res → run (Alt r1 r2) st caps k = Some res.
Proof. intros H. cbn [run]. by rewrite H. Qed.

Lemma run_Alt_r r1 r2 st caps k :
  run r1 st caps k = None → run (Alt r1 r2) st caps k = run r2 st caps k.
Proof. intros H. cbn [run]. by rewrite H. Qed.

(** *** What a successful run has done *)

Lemma advances_refl st : advances st st [].
Proof. by split. Qed.

Lemma advances_trans st1 st2 st3 s1 s2 :
  advances st1 st2 s1 → advances st2 st3 s2 → advances st1 st3 (s1 ++ s2).
Proof.
  intros [Hb1 Ha1] [Hb2 Ha2]. split.
  - by rewrite Hb2, Hb1, reverse_app, <- app_assoc.
  - by rewrite Ha1, Ha2, <- app_assoc.
Qed.

Lemma consumed_advances st st' s : advances st st' s → consumed st st' = s.
Proof.
  intros [Hb _]. unfold consumed. rewrite Hb, length_app, length_reverse.
  replace (length s + length (before st) - length (before st)) with (length s)
    by lia.
  rewrite take_app_length', reverse_involutive; [done|].
  by rewrite length_reverse.
Qed.

Lemma starGreedy_inv p rest : ∀ pre caps k res,
  starGreedy p pre rest caps k = Some res →
  ∃ s rest', rest = s ++ rest' ∧ Forall (fun c => p c = true) s
             ∧ k (Pos (reverse s ++ pre) rest') caps = Some res.
Proof.
  induction rest as [|c rest IH]; intros pre caps k res; cbn [starGreedy].
  - intros Hk. by exists [], [].
  - destruct (p c) eqn:Hc; [|intros Hk; by exists [], (c :: rest)].
    destruct (starGreedy p (c :: pre) rest caps k) as [res'|] eqn:Hstar.
    + intros [= ->]. apply IH in Hstar as (s & rest' & -> & Hs & Hk).
      exists (c :: s), rest'. split; [done|]. split; [by constructor|].
      by rewrite reverse_cons, <- app_assoc.
    + intros Hk. by exists [], (c :: rest).
Qed.

Lemma starLazy_inv p rest : ∀ pre caps k res,
  starLazy p pre rest caps k = Some res →
  ∃ s rest', rest = s ++ rest' ∧ Forall (fun c => p c = true) s
             ∧ k (Pos (reverse s ++ pre) rest') caps = Some res.
Proof.
  induction rest as [|c rest IH]; intros pre caps k res; cbn [starLazy].
  - destruct (k (Pos pre []) caps) as [res'|] eqn:Hk; [|done].
    intros [= ->]. by exists [], [].
  - destruct (k (Pos pre (c :: rest)) caps) as [res'|] eqn:Hk.
    + intros [= ->]. by exists [], (c :: rest).
    + destruct (p c) eqn:Hc; [|done].
      intros (s & rest' & -> & Hs & Hk')%IH.
      exists (c :: s), rest'. split; [done|]. split; [by constructor|].
      by rewrite reverse_cons, <- app_assoc.
Qed.

End Matcher.

Section Inversion.

Context {R : Type}.
Implicit Types (r : regex) (st : pos) (caps : captures) (k : cont R).

(** A successful run has moved forward over some text, has left the groups
    that are not in the pattern alone, and has been accepted by the
    continuation there. *)
Lemma run_inv r : ∀ st caps k res,
  run r st caps k = Some res →
  ∃ st' caps' s, advances st st' s
                 ∧ (∀ n, n ∉ groupsOf r → caps' n = caps n)
                 ∧ k st' caps' = Some res.
Proof.
  induction r as [|p|r1 IH1 r2 IH2|r1 IH1 r2 IH2|greedy p|n r IH| |];
    intros [pre rest] caps k res; cbn [run before after groupsOf].
  - intros Hk. exists (Pos pre rest), caps, []. by split; [apply advances_refl|].
  - destruct rest as [|c rest]; [done|]. destruct (p c); [|done]. intros Hk.
    by exists (Pos (c :: pre) rest), caps, [c].
  - intros (st1 & caps1 & s1 & Hadv1 & Hcaps1 & Hk1)%IH1.
    apply IH2 in Hk1 as (st2 & caps2 & s2 & Hadv2 & Hcaps2 & Hk2).
    exists st2, caps2, (s1 ++ s2). split; [by eapply advances_trans|].
    split; [|done]. intros n Hn. rewrite not_elem_of_app in Hn.
    rewrite Hcaps2, Hcaps1; tauto.
  - destruct (run r1 (Pos pre rest) caps k) as [res'|] eqn:H1.
    + intros [= ->]. apply IH1 in H1 as (st' & caps' & s & Hadv & Hcaps & Hk).
      exists st', caps', s. split; [done|]. split; [|done].
      intros n Hn. rewrite not_elem_of_app in Hn. apply Hcaps. tauto.
    + intros (st' & caps' & s & Hadv & Hcaps & Hk)%IH2.
      exists st', caps', s. split; [done|]. split; [|done].
      intros n Hn. rewrite not_elem_of_app in Hn. apply Hcaps. tauto.
  - intros H.
    assert (∃ s rest', rest = s ++ rest'
                       ∧ k (Pos (reverse s ++ pre) rest') caps = Some res)
      as (s & rest' & -> & Hk).
    { destruct greedy;
        [apply starGreedy_inv in H|apply starLazy_inv in H];
        destruct H as (s & rest' & ? & _ & ?); eauto. }
    by exists (Pos (reverse s ++ pre) rest'), caps, s.
  - intros (st' & caps' & s & Hadv & Hcaps & Hk)%IH.
    eexists st', _, s. split; [done|]. split; [|exact Hk].
    intros m Hm. rewrite not_elem_of_cons in Hm. unfold capture.
    case_decide; [tauto|]. apply Hcaps. tauto.
  - destruct (xorb _ _); [|done]. intros Hk.
    exists (Pos pre rest), caps, []. by split; [apply advances_refl|].
  - destruct pre; [|done]. intros Hk.
    exists (Pos [] rest), caps, []. by split; [apply advances_refl|].
Qed.

End Inversion.

Lemma searchFrom_here r pre rest res :
  matchAt r (Pos pre rest) = Some res → searchFrom r pre rest = Some res.
Proof. intros H. destruct rest; cbn [searchFrom]; by rewrite H. Qed.

(** The search passes over a stretch at whose characters no match starts. *)
Lemma searchFrom_skip r (Q : char -> Prop) :
  (∀ pre c rest, Q c → matchAt r (Pos pre (c :: rest)) = None) →
  ∀ s pre rest, Forall Q s →
    searchFrom r pre (s ++ rest) = searchFrom r (reverse s ++ pre) rest.
Proof.
  intros Hfail s. induction s as [|c s IH]; intros pre rest Hs; [done|].
  apply Forall_cons in Hs as [Hc Hs]. cbn [app searchFrom].
  rewrite (Hfail _ _ _ Hc), IH by done. by rewrite reverse_cons, <- app_assoc.
Qed.

(** A match found by the search starts at some split of the text. *)
Lemma searchFrom_inv r : ∀ rest pre res,
  searchFrom r pre rest = Some res →
  ∃ s rest', rest = s ++ rest'
             ∧ matchAt r (Pos (reverse s ++ pre) rest') = Some res.
Proof.
  induction rest as [|c rest IH]; intros pre res; cbn [searchFrom].
  - destruct (matchAt r (Pos pre [])) as [res'|] eqn:H; [|done].
    intros [= ->]. by exists [], [].
  - destruct (matchAt r (Pos pre (c :: rest))) as [res'|] eqn:H.
    + intros [= ->]. by exists [], (c :: rest).
    + intros (s & rest' & -> & Hm)%IH. exists (c :: s), rest'.
      split; [done|]. by rewrite reverse_cons, <- app_assoc.
Qed.

Lemma matchAt_index r st res :
  matchAt r st = Some res → index res = length (before st).
Proof.
  unfold matchAt. intros (st' & caps' & s & _ & _ & [= <-])%run_inv. done.
Qed.

(** ** The message and the name taken back from it *)

Lemma consumed_app pre s rest rest' :
  consumed (Pos pre rest) (Pos (reverse s ++ pre) rest') = s.
Proof.
  unfold consumed. cbn [before]. rewrite length_app, length_reverse.
  replace (length s + length pre - length pre) with (length s) by lia.
  rewrite take_app_length', reverse_involutive; [done|].
  by rewrite length_reverse.
Qed.

Lemma extractModelName_message (name : jsstring) :
  isName name → extractModelName (notImportedMessage name) = Some name.
Proof.
  intros [Hne Hword].
  assert (∃ st', matchAt modelNameRe (Pos [] (notImportedMessage name))
                 = Some (Result 0 st' (capture 1 name noCaptures)))
    as [st' Hm].
  { eexists. unfold matchAt, modelNameRe, notImportedMessage.
    rewrite run_Seq, run_Lit, run_Seq, run_Group.
    apply run_Plus_all; [done|done|done|].
    change (lit "' is not imported. Please import the model before using it.")
      with (lit "' is not imported"
            ++ lit ". Please import the model before using it.").
    rewrite run_Lit, consumed_app. reflexivity. }
  unfold extractModelName, exec. rewrite (searchFrom_here _ _ _ _ Hm).
  reflexivity.
Qed.

(** ** The usage pattern *)

Lemma groupsOf_Lit s : groupsOf (Lit s) = [].
Proof. induction s as [|c s IH]; [done|]. simpl. by rewrite IH. Qed.

Lemma groupsOf_methodsPattern methods : groupsOf (methodsPattern methods) = [].
Proof.
  unfold methodsPattern. induction methods as [|m methods IH]; [done|].
  destruct methods as [|m' methods]; [apply groupsOf_Lit|].
  change (groupsOf (Lit m) ++ groupsOf (alts (Lit <$> m' :: methods)) = []).
  by rewrite IH, groupsOf_Lit.
Qed.

(** A match of the usage pattern: its first group is a capitalized name, and
    the match is not empty. *)
Lemma modelMethodRegex_match methods st res :
  matchAt (modelMethodRegex methods) st = Some res →
  ∃ c s, JS.isUpper c = true ∧ Forall (fun x => JS.isWord x = true) s
         ∧ groups res 1 = Some (c :: s)
         ∧ index res = length (before st)
         ∧ length (after (endPos res)) < length (after st).
Proof.
  intros Hm. pose proof (matchAt_index _ _ _ Hm) as Hidx. revert Hm.
  destruct st as [pre rest]. unfold matchAt, modelMethodRegex.
  rewrite run_Seq, run_WordBoundary. destruct (xorb _ _); [|done].
  rewrite run_Seq, run_Group, run_Seq, run_Chr.
  destruct rest as [|c rest]; [done|]. destruct (JS.isUpper c) eqn:Hc; [|done].
  rewrite run_Star_greedy. intros (s & rest' & -> & Hs & Hk)%starGreedy_inv.
  apply run_inv in Hk as (st' & caps' & s' & [_ Hadv] & Hcaps & [= <-]).
  exists c, s. split; [done|]. split; [done|]. cbn [groups endPos].
  split; [|split; [done|]].
  - rewrite Hcaps.
    + unfold capture. rewrite decide_True by done. f_equal.
      change (c :: pre) with ([c] ++ pre). rewrite app_assoc, <- reverse_cons.
      apply consumed_app.
    + cbn [groupsOf]. rewrite groupsOf_Lit, groupsOf_methodsPattern.
      cbn. rewrite list_elem_of_singleton. lia.
  - cbn [after] in Hadv. rewrite Hadv. cbn [after length].
    rewrite !length_app. lia.
Qed.

Lemma execLoop_results methods (P : result -> Prop) :
  (∀ st res, matchAt (modelMethodRegex methods) st = Some res → P res) →
  ∀ fuel st, Forall P (execLoop fuel (modelMethodRegex methods) st).
Proof.
  intros HP fuel. induction fuel as [|fuel IH]; intros st; cbn [execLoop]; [done|].
  destruct (searchFrom _ _ _) as [res|] eqn:Hs; [|done].
  constructor; [|apply IH].
  apply searchFrom_inv in Hs as (s & rest' & _ & Hm). by eapply HP.
Qed.

(** The fuel given to the inner loop is enough: more fuel gives the same
    matches. *)
Lemma execLoop_fuel methods : ∀ fuel1 fuel2 st,
  length (after st) < fuel1 → length (after st) < fuel2 →
  execLoop fuel1 (modelMethodRegex methods) st
  = execLoop fuel2 (modelMethodRegex methods) st.
Proof.
  induction fuel1 as [|fuel1 IH]; intros fuel2 st H1 H2; [lia|].
  destruct fuel2 as [|fuel2]; [lia|]. cbn [execLoop].
  destruct (searchFrom _ _ _) as [res|] eqn:Hs; [|done]. f_equal.
  apply searchFrom_inv in Hs as (s & rest' & Hrest & Hm).
  apply modelMethodRegex_match in Hm as (_ & _ & _ & _ & _ & _ & Hlen).
  cbn [after] in Hlen. rewrite Hrest, length_app in H1, H2. apply IH; lia.
Qed.

Lemma lineUsages_fuel methods lineIndex l fuel :
  length l < fuel →
  lineUsages methods lineIndex l
  = usageOf lineIndex <$> execLoop fuel (modelMethodRegex methods) (Pos [] l).
Proof.
  intros Hfuel. unfold lineUsages. f_equal. apply execLoop_fuel; cbn [after]; lia.
Qed.

Lemma lineUsages_name methods lineIndex l u :
  u ∈ lineUsages methods lineIndex l → isName (modelName u).
Proof.
  unfold lineUsages. intros (m & -> & Hm)%list_elem_of_fmap.
  assert (∃ c s, JS.isUpper c = true ∧ Forall (fun x => JS.isWord x = true) s
                 ∧ groups m 1 = Some (c :: s)) as (c & s & Hc & Hs & Hg).
  { revert m Hm. apply Forall_forall, execLoop_results.
    intros st res (c & s & ? & ? & ? & _)%modelMethodRegex_match. eauto. }
  unfold usageOf. cbn [modelName]. rewrite Hg. cbn [default]. split; [done|].
  constructor; [by apply isUpper_isWord|done].
Qed.

(** ** trim and split *)

Section Strings.

Implicit Types (s ws : jsstring) (c sep : char).

Lemma trimStart_spaces ws s :
  allSpace ws → JS.trimStart (ws ++ s) = JS.trimStart s.
Proof.
  induction 1 as [|c ws Hc _ IH]; [done|]. cbn [app JS.trimStart]. by rewrite Hc.
Qed.

Lemma trimStart_all ws : allSpace ws → JS.trimStart ws = [].
Proof. induction 1 as [|c ws Hc _ IH]; [done|]. simpl. by rewrite Hc. Qed.

Lemma trimStart_stops s : stops JS.isSpace s → JS.trimStart s = s.
Proof. destruct s as [|c s]; [done|]. simpl. by intros ->. Qed.

Lemma trim_spaces ws1 s ws2 :
  allSpace ws1 → allSpace ws2 → trimmed s → JS.trim (ws1 ++ s ++ ws2) = s.
Proof.
  intros H1 H2 [Hhead Hlast]. unfold JS.trim, JS.trimEnd.
  rewrite trimStart_spaces by done. destruct s as [|c s].
  - by rewrite app_nil_l, (trimStart_all ws2).
  - rewrite (trimStart_stops ((c :: s) ++ ws2)) by exact Hhead.
    rewrite reverse_app, trimStart_spaces.
    + by rewrite trimStart_stops, reverse_involutive.
    + by apply Forall_reverse.
Qed.

Lemma trim_trimmed s : trimmed s → JS.trim s = s.
Proof.
  intros H. pose proof (trim_spaces [] s [] (Forall_nil_2 _) (Forall_nil_2 _) H) as E.
  by rewrite app_nil_l, app_nil_r in E.
Qed.

Lemma name_stops_space s rest :
  isName s → stops JS.isSpace (s ++ rest).
Proof.
  intros [Hne Hs]. destruct s as [|c s]; [done|].
  apply Forall_cons in Hs as [Hc _]. by apply isWord_not_space.
Qed.

Lemma isName_reverse s : isName s → isName (reverse s).
Proof.
  intros [Hne Hs]. split; [|by apply Forall_reverse].
  intros H. apply Hne. by rewrite <- (reverse_involutive s), H.
Qed.

Lemma name_trimmed s : isName s → trimmed s.
Proof.
  intros Hs. split.
  - rewrite <- (app_nil_r s). by apply name_stops_space.
  - rewrite <- (app_nil_r (reverse s)). by apply name_stops_space, isName_reverse.
Qed.

(** Text that starts with a name and ends with a name. *)
Lemma names_trimmed s1 mid s2 :
  isName s1 → isName s2 → trimmed (s1 ++ mid ++ s2).
Proof.
  intros H1 H2. split; [by apply name_stops_space|].
  rewrite !reverse_app, <- app_assoc. by apply name_stops_space, isName_reverse.
Qed.

Lemma split_without sep s :
  Forall (fun c => (c =? sep)%N = false) s → JS.split sep s = [s].
Proof.
  induction 1 as [|c s Hc _ IH]; [done|]. cbn [JS.split]. by rewrite Hc, IH.
Qed.

Lemma split_at sep s rest :
  Forall (fun c => (c =? sep)%N = false) s →
  JS.split sep (s ++ sep :: rest) = s :: JS.split sep rest.
Proof.
  induction 1 as [|c s Hc _ IH]; cbn [app JS.split].
  - by rewrite N.eqb_refl.
  - by rewrite Hc, IH.
Qed.

End Strings.

(** ** Cutting an entry at its rename *)

Section Entries.

Implicit Types (s name alias : jsstring).

Lemma asRe_needs_space pre c rest :
  JS.isSpace c = false → matchAt asRe (Pos pre (c :: rest)) = None.
Proof.
  intros Hc. unfold matchAt, asRe, Plus. by rewrite !run_Seq, run_Chr, Hc.
Qed.

Lemma asRe_not_at_end pre : matchAt asRe (Pos pre []) = None.
Proof. reflexivity. Qed.

Lemma splitHead_as_plain s :
  Forall (fun c => JS.isSpace c = false) s → splitHead asRe s = s.
Proof.
  intros Hs. unfold splitHead, exec. rewrite <- (app_nil_r s) at 1.
  rewrite (searchFrom_skip asRe (fun c => JS.isSpace c = false)); [|apply asRe_needs_space|done].
  done.
Qed.

Lemma splitHead_as_alias name alias :
  Forall (fun c => JS.isSpace c = false) name → isName alias →
  splitHead asRe (name ++ lit " as " ++ alias) = name.
Proof.
  intros Hname Halias. unfold splitHead, exec.
  rewrite (searchFrom_skip asRe (fun c => JS.isSpace c = false));
    [|apply asRe_needs_space|done].
  assert (∃ st' caps', matchAt asRe (Pos (reverse name ++ []) (lit " as " ++ alias))
                       = Some (Result (length name) st' caps')) as (st' & caps' & Hm).
  { do 2 eexists. unfold matchAt, asRe.
    change (lit " as " ++ alias) with ([32%N] ++ lit "as" ++ [32%N] ++ alias).
    rewrite run_Seq. apply run_Plus_all; [done|by repeat constructor|done|].
    rewrite run_Seq, run_Lit.
    rewrite <- (app_nil_r alias).
    apply run_Plus_all; [done|by repeat constructor|by apply name_stops_space|].
    cbn [before]. by rewrite !app_nil_r, length_reverse. }
  rewrite (searchFrom_here _ _ _ _ Hm). cbn [index]. by rewrite take_app_length.
Qed.

Lemma colonRe_needs_colon pre c rest :
  JS.isWord c = true → matchAt colonRe (Pos pre (c :: rest)) = None.
Proof.
  intros Hc. unfold matchAt, colonRe.
  rewrite run_Seq, run_Star_greedy. cbn [starGreedy].
  rewrite (isWord_not_space _ Hc), run_Seq.
  change (lit ":") with [58%N]. cbn [Lit]. rewrite run_Seq, run_Chr.
  assert ((58 =? c)%N = false) as -> by charclass. done.
Qed.

Lemma splitHead_colon_plain s :
  Forall (fun c => JS.isWord c = true) s → splitHead colonRe s = s.
Proof.
  intros Hs. unfold splitHead, exec. rewrite <- (app_nil_r s) at 1.
  rewrite (searchFrom_skip colonRe (fun c => JS.isWord c = true));
    [|apply colonRe_needs_colon|done].
  done.
Qed.

Lemma splitHead_colon_rename name alias :
  Forall (fun c => JS.isWord c = true) name → isName alias →
  splitHead colonRe (name ++ lit ": " ++ alias) = name.
Proof.
  intros Hname Halias. unfold splitHead, exec.
  rewrite (searchFrom_skip colonRe (fun c => JS.isWord c = true));
    [|apply colonRe_needs_colon|done].
  assert (∃ st' caps',
            matchAt colonRe (Pos (reverse name ++ []) (lit ": " ++ alias))
            = Some (Result (length name) st' caps')) as (st' & caps' & Hm).
  { do 2 eexists. unfold matchAt, colonRe.
    change (lit ": " ++ alias) with ([] ++ lit ":" ++ [32%N] ++ alias).
    rewrite run_Seq. apply run_Star_all; [done|done|].
    rewrite run_Seq, run_Lit. rewrite <- (app_nil_r alias).
    apply run_Star_all; [by repeat constructor|by apply name_stops_space|].
    cbn [before]. by rewrite !app_nil_r, length_reverse. }
  rewrite (searchFrom_here _ _ _ _ Hm). cbn [index]. by rewrite take_app_length.
Qed.

End Entries.

(** ** The binder patterns on the five forms *)

Section BinderForms.

Implicit Types (pre tail name body : jsstring) (q : char).

(** [import name from 'tail]  *)
Lemma es6ImportRe_default pre name q tail :
  isName name → isQuote q = true →
  ∃ st', matchAt es6ImportRe
           (Pos pre (lit "import " ++ name ++ lit " from " ++ q :: tail))
         = Some (Result (length pre) st' (capture 1 name noCaptures)).
Proof.
  intros Hname Hq. eexists. unfold matchAt, es6ImportRe.
  change (lit "import " ++ name ++ lit " from " ++ q :: tail)
    with (lit "import" ++ [32%N] ++ name ++ [32%N] ++ lit "from" ++ [32%N]
          ++ q :: tail).
  rewrite run_Seq, run_Lit, run_Seq.
  apply run_Plus_all; [done|by repeat constructor|by apply name_stops_space|].
  rewrite run_Seq. apply run_Alt_l. rewrite run_Group.
  destruct Hname as [Hne Hword].
  apply run_Plus_all; [done|done|done|].
  rewrite run_Seq.
  apply run_Plus_all; [done|by repeat constructor|done|].
  rewrite run_Seq, run_Lit, run_Seq.
  apply run_Plus_all; [done|by repeat constructor| |].
  { simpl. clear -Hq. charclass. }
  rewrite run_Chr, Hq, consumed_app. reflexivity.
Qed.

(** [import {body} from 'tail] *)
Lemma es6ImportRe_named pre body q tail :
  body ≠ [] → Forall (fun c => notRBrace c = true) body → isQuote q = true →
  ∃ st', matchAt es6ImportRe
           (Pos pre (lit "import {" ++ body ++ lit "} from " ++ q :: tail))
         = Some (Result (length pre) st' (capture 2 body noCaptures)).
Proof.
  intros Hne Hbody Hq. eexists. unfold matchAt, es6ImportRe.
  change (lit "import {" ++ body ++ lit "} from " ++ q :: tail)
    with (lit "import" ++ [32%N] ++ lit "{" ++ body ++ lit "}" ++ [32%N]
          ++ lit "from" ++ [32%N] ++ q :: tail).
  rewrite run_Seq, run_Lit, run_Seq.
  apply run_Plus_all; [done|by repeat constructor|done|].
  rewrite run_Seq, run_Alt_r by reflexivity. apply run_Alt_l.
  rewrite run_Seq, run_Lit, run_Seq, run_Group.
  apply run_Plus_all; [done|done|done|].
  rewrite run_Lit, run_Seq.
  apply run_Plus_all; [done|by repeat constructor|done|].
  rewrite run_Seq, run_Lit, run_Seq.
  apply run_Plus_all; [done|by repeat constructor| |].
  { simpl. clear -Hq. charclass. }
  rewrite run_Chr, Hq, consumed_app. reflexivity.
Qed.

(** [import * as name from 'tail] *)
Lemma es6ImportRe_namespace pre name q tail :
  isName name → isQuote q = true →
  ∃ st', matchAt es6ImportRe
           (Pos pre (lit "import * as " ++ name ++ lit " from " ++ q :: tail))
         = Some (Result (length pre) st' (capture 3 name noCaptures)).
Proof.
  intros Hname Hq. eexists. unfold matchAt, es6ImportRe.
  change (lit "import * as " ++ name ++ lit " from " ++ q :: tail)
    with (lit "import" ++ [32%N] ++ lit "*" ++ [32%N] ++ lit "as" ++ [32%N]
          ++ name ++ [32%N] ++ lit "from" ++ [32%N] ++ q :: tail).
  rewrite run_Seq, run_Lit, run_Seq.
  apply run_Plus_all; [done|by repeat constructor|done|].
  rewrite run_Seq, run_Alt_r by reflexivity. rewrite run_Alt_r by reflexivity.
  rewrite run_Seq, run_Lit, run_Seq.
  apply run_Plus_all; [done|by repeat constructor|done|].
  rewrite run_Seq, run_Lit, run_Seq.
  apply run_Plus_all; [done|by repeat constructor|by apply name_stops_space|].
  rewrite run_Group. destruct Hname as [Hne Hword].
  apply run_Plus_all; [done|done|done|].
  rewrite run_Seq.
  apply run_Plus_all; [done|by repeat constructor|done|].
  rewrite run_Seq, run_Lit, run_Seq.
  apply run_Plus_all; [done|by repeat constructor| |].
  { simpl. clear -Hq. charclass. }
  rewrite run_Chr, Hq, consumed_app. reflexivity.
Qed.

Lemma run_declarator {R} kw pre rest caps (k : cont R) :
  isDeclarator kw →
  run (Alt (Lit (lit "const")) (Alt (Lit (lit "let")) (Lit (lit "var"))))
    (Pos pre (kw ++ rest)) caps k
  = k (Pos (reverse kw ++ pre) rest) caps.
Proof.
  assert (∀ r1 r2 st, run (Alt r1 r2) st caps k
                      = match run r1 st caps k with
                        | Some x => Some x
                        | None => run r2 st caps k
                        end) as Halt by reflexivity.
  intros [->|[->| ->]].
  - rewrite Halt, run_Lit. by destruct (k _ _).
  - rewrite run_Alt_r by reflexivity. rewrite Halt, run_Lit. by destruct (k _ _).
  - rewrite run_Alt_r by reflexivity. rewrite run_Alt_r by reflexivity.
    by rewrite run_Lit.
Qed.

(** [const name = require(tail], and the same with [let] and [var] *)
Lemma requireRe_single pre kw name tail :
  isDeclarator kw → isName name →
  ∃ st', matchAt requireRe
           (Pos pre (kw ++ lit " " ++ name ++ lit " = require(" ++ tail))
         = Some (Result (length pre) st' (capture 1 name noCaptures)).
Proof.
  intros Hkw Hname. eexists. unfold matchAt, requireRe.
  change (kw ++ lit " " ++ name ++ lit " = require(" ++ tail)
    with (kw ++ [32%N] ++ name ++ [32%N] ++ lit "=" ++ [32%N] ++ lit "require"
          ++ [] ++ lit "(" ++ tail).
  rewrite run_Seq, run_declarator by done. rewrite run_Seq.
  apply run_Plus_all; [done|by repeat constructor|by apply name_stops_space|].
  rewrite run_Seq. apply run_Alt_l. rewrite run_Group.
  destruct Hname as [Hne Hword].
  apply run_Plus_all; [done|done|done|].
  rewrite run_Seq.
  apply run_Star_all; [by repeat constructor|done|].
  rewrite run_Seq, run_Lit, run_Seq.
  apply run_Star_all; [by repeat constructor|done|].
  rewrite run_Seq, run_Lit, run_Seq.
  apply run_Star_all; [done|done|].
  rewrite run_Lit, consumed_app. reflexivity.
Qed.

(** [const {body} = require(tail], and the same with [let] and [var] *)
Lemma requireRe_destructured pre kw body tail :
  isDeclarator kw → body ≠ [] → Forall (fun c => notRBrace c = true) body →
  ∃ st', matchAt requireRe
           (Pos pre (kw ++ lit " {" ++ body ++ lit "} = require(" ++ tail))
         = Some (Result (length pre) st' (capture 2 body noCaptures)).
Proof.
  intros Hkw Hne Hbody. eexists. unfold matchAt, requireRe.
  change (kw ++ lit " {" ++ body ++ lit "} = require(" ++ tail)
    with (kw ++ [32%N] ++ lit "{" ++ body ++ lit "}" ++ [32%N] ++ lit "="
          ++ [32%N] ++ lit "require" ++ [] ++ lit "(" ++ tail).
  rewrite run_Seq, run_declarator by done. rewrite run_Seq.
  apply run_Plus_all; [done|by repeat constructor|done|].
  rewrite run_Seq, run_Alt_r by reflexivity.
  rewrite run_Seq, run_Lit, run_Seq, run_Group.
  apply run_Plus_all; [done|done|done|].
  rewrite run_Lit, run_Seq.
  apply run_Star_all; [by repeat constructor|done|].
  rewrite run_Seq, run_Lit, run_Seq.
  apply run_Star_all; [by repeat constructor|done|].
  rewrite run_Seq, run_Lit, run_Seq.
  apply run_Star_all; [done|done|].
  rewrite run_Lit, consumed_app. reflexivity.
Qed.

End BinderForms.

(** ** Braced lists *)

Section NamedImports.

Implicit Types (e : entry) (es : list entry) (s rest ws : jsstring).

Lemma name_no_comma s :
  isName s → Forall (fun c => (c =? 44)%N = false) s.
Proof. intros [_ Hs]. eapply Forall_impl; [done|]. apply isWord_not_comma. Qed.

Lemma name_no_space s :
  isName s → Forall (fun c => JS.isSpace c = false) s.
Proof. intros [_ Hs]. eapply Forall_impl; [done|]. apply isWord_not_space. Qed.

Lemma name_no_brace s :
  isName s → Forall (fun c => notRBrace c = true) s.
Proof. intros [_ Hs]. eapply Forall_impl; [done|]. apply isWord_notRBrace. Qed.

(** The pattern [re] cuts an entry at the separator [sep]. *)
Variables (sep : jsstring) (re : regex).

(** Neither a comma nor a closing brace occurs in the separator. *)
Hypothesis sep_plain :
  Forall (fun c => (c =? 44)%N = false ∧ notRBrace c = true) sep.

Hypothesis cut_name : ∀ name, isName name → splitHead re name = name.

Hypothesis cut_rename : ∀ name alias,
  isName name → isName alias → splitHead re (name ++ sep ++ alias) = name.

Lemma namedImports_cons s rest :
  Forall (fun c => (c =? 44)%N = false) s →
  namedImports re (s ++ lit "," ++ rest)
  = JS.trim (splitHead re (JS.trim s)) :: namedImports re rest.
Proof.
  intros Hs. unfold namedImports. change (lit "," ++ rest) with (44%N :: rest).
  by rewrite (split_at 44%N s rest Hs).
Qed.

Lemma namedImports_last s :
  Forall (fun c => (c =? 44)%N = false) s →
  namedImports re s = [JS.trim (splitHead re (JS.trim s))].
Proof. intros Hs. unfold namedImports. by rewrite split_without. Qed.

Lemma renderEntry_plain e :
  isEntry e →
  Forall (fun c => (c =? 44)%N = false ∧ notRBrace c = true) (renderEntry sep e).
Proof.
  assert (∀ s, isName s →
            Forall (fun c => (c =? 44)%N = false ∧ notRBrace c = true) s) as Hn.
  { intros s [_ Hs]. eapply Forall_impl; [done|]. intros c Hc.
    split; [by apply isWord_not_comma|by apply isWord_notRBrace]. }
  intros [Hname Halias]. unfold renderEntry.
  apply Forall_app. split; [by repeat constructor|].
  apply Forall_app. split; [by apply Hn|].
  destruct e.2; [|done]. apply Forall_app. split; [done|by apply Hn].
Qed.

(** One entry, with white space after it, is cut down to its name. *)
Lemma entry_name e ws :
  isEntry e → allSpace ws →
  JS.trim (splitHead re (JS.trim (renderEntry sep e ++ ws))) = e.1.
Proof.
  intros [Hname Halias] Hws. unfold renderEntry.
  destruct e as [name [alias|]]; cbn [fst snd] in *.
  - replace ((lit " " ++ name ++ sep ++ alias) ++ ws)
      with (lit " " ++ (name ++ sep ++ alias) ++ ws)
      by (by rewrite <- !app_assoc).
    rewrite trim_spaces;
      [|by repeat constructor|done|by apply names_trimmed].
    rewrite cut_rename by done. by apply trim_trimmed, name_trimmed.
  - rewrite app_nil_r, <- app_assoc.
    rewrite trim_spaces; [|by repeat constructor|done|by apply name_trimmed].
    rewrite cut_name by done. by apply trim_trimmed, name_trimmed.
Qed.

(** The names of a braced list are the left-hand names of its entries. *)
Lemma namedImports_entries es :
  Forall isEntry es →
  es ≠ [] → namedImports re (renderEntries sep es) = fst <$> es.
Proof.
  induction 1 as [|e es He Hes IH]; [done|]. intros _.
  pose proof (renderEntry_plain e He) as Hplain.
  destruct es as [|e' es].
  - cbn [renderEntries fmap list_fmap]. rewrite namedImports_last.
    + f_equal. apply entry_name; [done|]. by apply Forall_singleton.
    + apply Forall_app. split; [|by repeat constructor].
      eapply Forall_impl; [done|]. by intros c [? _].
  - change (renderEntries sep (e :: e' :: es))
      with (renderEntry sep e ++ lit "," ++ renderEntries sep (e' :: es)).
    rewrite namedImports_cons.
    + rewrite IH by done. cbn [fmap list_fmap]. f_equal.
      rewrite <- (app_nil_r (renderEntry sep e)).
      apply entry_name; [done|apply Forall_nil_2].
    + eapply Forall_impl; [done|]. by intros c [? _].
Qed.

Lemma renderEntries_body es :
  Forall isEntry es → es ≠ [] →
  renderEntries sep es ≠ []
  ∧ Forall (fun c => notRBrace c = true) (renderEntries sep es).
Proof.
  induction 1 as [|e es He Hes IH]; [done|]. intros _.
  pose proof (renderEntry_plain e He) as Hplain.
  assert (Forall (fun c => notRBrace c = true) (renderEntry sep e)) as Hb.
  { eapply Forall_impl; [done|]. by intros c [_ ?]. }
  destruct es as [|e' es].
  - cbn [renderEntries]. split; [done|].
    apply Forall_app. split; [done|by repeat constructor].
  - change (renderEntries sep (e :: e' :: es))
      with (renderEntry sep e ++ lit "," ++ renderEntries sep (e' :: es)).
    split; [done|]. apply Forall_app. split; [done|].
    apply Forall_app. split; [by repeat constructor|]. by apply IH.
Qed.

End NamedImports.

(** ** From a diagnostic back to the model *)

Lemma usage_name text methods usage :
  usage ∈ findModelMethodUsages text methods → isName (modelName usage).
Proof.
  intros (i & l & _ & _ & Hu)%elem_of_usagesFrom. by eapply lineUsages_name.
Qed.

Lemma provideCodeActions_one document usage :
  isName (modelName usage) →
  provideCodeActions document [diagnosticOf usage]
  = [createImportAction document (diagnosticOf usage) (modelName usage)
       DefaultImport].
Proof.
  intros Hname. unfold provideCodeActions. cbn [foldl diagnosticOf source message].
  rewrite bool_decide_eq_true_2 by done.
  rewrite extractModelName_message by done.
  destruct Hname as [Hne _]. by destruct (modelName usage).
Qed.

(** C9. The name taken back from the not-imported message of a name made of
    word characters is that name. Every model name the scanner reports is
    such a name, so for every diagnostic of a scan the quick fix is the
    import of the model the diagnostic is about. *)
Theorem message_names_the_model (name text : jsstring)
    (methods : list jsstring) (document : TextDocument) :
  isName name →
  extractModelName (notImportedMessage name) = Some name
  ∧ Forall (fun d =>
              ∃ usage, usage ∈ findModelMethodUsages text methods
                       ∧ d = diagnosticOf usage
                       ∧ isName (modelName usage)
                       ∧ extractModelName (message d) = Some (modelName usage)
                       ∧ provideCodeActions document [d]
                         = [createImportAction document d (modelName usage)
                              DefaultImport])
      (scan text methods).
Proof.
  intros Hname. split; [by apply extractModelName_message|].
  apply Forall_forall. intros d (usage & Hu & _ & ->)%elem_of_scan.
  pose proof (usage_name _ _ _ Hu) as Hn. exists usage.
  split; [done|]. split; [done|]. split; [done|].
  split; [by apply extractModelName_message|by apply provideCodeActions_one].
Qed.

Lemma message_names_the_model_witness :
  isName (lit "User")
  ∧ extractModelName (notImportedMessage (lit "User")) = Some (lit "User")
  ∧ Forall (fun d =>
              ∃ usage, usage ∈ findModelMethodUsages scenarioA defaultModelMethods
                       ∧ d = diagnosticOf usage
                       ∧ isName (modelName usage)
                       ∧ extractModelName (message d) = Some (modelName usage)
                       ∧ provideCodeActions (javascriptDocument scenarioA) [d]
                         = [createImportAction (javascriptDocument scenarioA) d
                              (modelName usage) DefaultImport])
      (scan scenarioA defaultModelMethods).
Proof.
  assert (isName (lit "User")) as Hname.
  { split; [discriminate|]. vm_compute. repeat constructor. }
  split; [exact Hname|].
  exact (message_names_the_model (lit "User") scenarioA defaultModelMethods
           (javascriptDocument scenarioA) Hname).
Defined.

(** ** The braced forms *)

Lemma exec_here r l res :
  matchAt r (Pos [] l) = Some res → exec r l = Some res.
Proof. apply searchFrom_here. Qed.

Lemma capture_same n s caps : capture n s caps n = Some s.
Proof. unfold capture. by rewrite decide_True. Qed.

Lemma capture_other n m s caps : m ≠ n → capture n s caps m = caps m.
Proof. intros H. unfold capture. by rewrite decide_False. Qed.

Lemma truthy_Some s : s ≠ [] → truthy (Some s) = [s].
Proof. by destruct s. Qed.

Lemma es6Names_named body q tail :
  body ≠ [] → Forall (fun c => notRBrace c = true) body → isQuote q = true →
  es6Names (lit "import {" ++ body ++ lit "} from " ++ q :: tail)
  = namedImports asRe body.
Proof.
  intros Hne Hbody Hq.
  destruct (es6ImportRe_named [] body q tail Hne Hbody Hq) as [st' Hm].
  unfold es6Names. rewrite (exec_here _ _ _ Hm). cbn [groups].
  rewrite capture_same, !capture_other, truthy_Some by done.
  cbn [noCaptures truthy mbind list_bind app]. by rewrite !app_nil_r.
Qed.

Lemma requireNames_destructured kw body tail :
  isDeclarator kw → body ≠ [] → Forall (fun c => notRBrace c = true) body →
  requireNames (kw ++ lit " {" ++ body ++ lit "} = require(" ++ tail)
  = namedImports colonRe body.
Proof.
  intros Hkw Hne Hbody.
  destruct (requireRe_destructured [] kw body tail Hkw Hne Hbody) as [st' Hm].
  unfold requireNames. rewrite (exec_here _ _ _ Hm). cbn [groups].
  rewrite capture_same, !capture_other, truthy_Some by done.
  cbn [noCaptures truthy mbind list_bind app]. by rewrite !app_nil_r.
Qed.

Lemma as_entries es :
  Forall isEntry es → es ≠ [] →
  namedImports asRe (renderEntries (lit " as ") es) = fst <$> es.
Proof.
  apply namedImports_entries.
  - by repeat constructor.
  - intros name Hname. by apply splitHead_as_plain, name_no_space.
  - intros name alias Hname Halias.
    by apply splitHead_as_alias; [apply name_no_space|].
Qed.

Lemma colon_entries es :
  Forall isEntry es → es ≠ [] →
  namedImports colonRe (renderEntries (lit ": ") es) = fst <$> es.
Proof.
  apply namedImports_entries.
  - by repeat constructor.
  - intros name [_ Hname]. by apply splitHead_colon_plain.
  - intros name alias [_ Hname] Halias. by apply splitHead_colon_rename.
Qed.

(** C4. In a named import and in a destructured require the binder binds,
    for each entry of the braced list, the name on the left: the name before
    [as], the key before the colon. The names are in the set of imported
    models of any text that has such a line outside comments. *)
Theorem braced_entries_bind_left_names (es : list entry)
    (importTail requireTail : jsstring) :
  es ≠ [] → Forall isEntry es →
  let importLine :=
    lit "import {" ++ renderEntries (lit " as ") es ++ lit "} from '"
    ++ importTail in
  let requireLine :=
    lit "const {" ++ renderEntries (lit ": ") es ++ lit "} = require("
    ++ requireTail in
  es6Names importLine = fst <$> es
  ∧ requireNames requireLine = fst <$> es
  ∧ ∀ text i l,
      JS.split newline text !! i = Some l →
      ¬ isCommentLine (JS.split newline text) i →
      l = importLine ∨ l = requireLine →
      Forall (fun e => e.1 ∈ getImportedModels text) es.
Proof.
  intros Hne Hes importLine requireLine.
  assert (es6Names importLine = fst <$> es) as Himport.
  { destruct (renderEntries_body (lit " as ") ltac:(by repeat constructor) es Hes Hne)
      as [Hbne Hbody].
    subst importLine.
    change (lit "} from '" ++ importTail)
      with (lit "} from " ++ 39%N :: importTail).
    rewrite es6Names_named by done. by apply as_entries. }
  assert (requireNames requireLine = fst <$> es) as Hrequire.
  { destruct (renderEntries_body (lit ": ") ltac:(by repeat constructor) es Hes Hne)
      as [Hbne Hbody].
    subst requireLine.
    change (lit "const {" ++ renderEntries (lit ": ") es ++ lit "} = require("
            ++ requireTail)
      with (lit "const" ++ lit " {" ++ renderEntries (lit ": ") es
            ++ lit "} = require(" ++ requireTail).
    rewrite requireNames_destructured; [by apply colon_entries|by left|done|done]. }
  split; [done|]. split; [done|]. intros text i l Hl Hc Hform.
  apply Forall_forall. intros e He.
  apply (line_binding_suppresses text [] i l e.1 Hl Hc).
  apply elem_of_app. destruct Hform as [-> | ->]; [left|right].
  - rewrite Himport. by apply list_elem_of_fmap_2.
  - rewrite Hrequire. by apply list_elem_of_fmap_2.
Qed.

Lemma braced_entries_bind_left_names_witness :
  [(lit "A", None); (lit "B", Some (lit "C"))] ≠ []
  ∧ Forall isEntry [(lit "A", None); (lit "B", Some (lit "C"))]
  ∧ es6Names (lit "import { A, B as C } from './models';") = [lit "A"; lit "B"]
  ∧ requireNames (lit "const { A, B: C } = require('./models');")
    = [lit "A"; lit "B"]
  ∧ ∀ text i l,
      JS.split newline text !! i = Some l →
      ¬ isCommentLine (JS.split newline text) i →
      l = lit "import { A, B as C } from './models';"
      ∨ l = lit "const { A, B: C } = require('./models');" →
      Forall (fun e : entry => e.1 ∈ getImportedModels text)
        [(lit "A", None); (lit "B", Some (lit "C"))].
Proof.
  assert (Forall isEntry [(lit "A", None); (lit "B", Some (lit "C"))]) as Hes.
  { repeat constructor; try discriminate; vm_compute; repeat constructor. }
  split; [discriminate|]. split; [exact Hes|].
  exact (braced_entries_bind_left_names
           [(lit "A", None); (lit "B", Some (lit "C"))]
           (lit "./models';") (lit "'./models');") ltac:(discriminate) Hes).
Defined.

(** ** Statements that are not at the start of their line *)

(** When the first match of a pattern on a line starts after [pre], it is
    the match at that position. *)
Lemma exec_at r pre s :
  index <$> exec r (pre ++ s) = Some (length pre) →
  ∃ res, exec r (pre ++ s) = Some res
         ∧ matchAt r (Pos (reverse pre) s) = Some res.
Proof.
  destruct (exec r (pre ++ s)) as [res|] eqn:Hexec; [|done].
  intros [= Hidx]. exists res. split; [done|].
  apply searchFrom_inv in Hexec as (p & rest & Heq & Hm).
  pose proof (matchAt_index _ _ _ Hm) as Hlen. cbn [before] in Hlen.
  rewrite app_nil_r, length_reverse, Hidx in Hlen.
  apply app_inj_1 in Heq as [-> ->]; [|done]. by rewrite app_nil_r in Hm.
Qed.

Lemma es6Names_default pre name tail :
  isName name →
  index <$> exec es6ImportRe (pre ++ lit "import " ++ name ++ lit " from '" ++ tail)
  = Some (length pre) →
  es6Names (pre ++ lit "import " ++ name ++ lit " from '" ++ tail) = [name].
Proof.
  intros Hname (res & Hexec & Hm)%exec_at.
  destruct (es6ImportRe_default (reverse pre) name 39%N tail Hname eq_refl)
    as [st' Hm'].
  change (lit " from " ++ 39%N :: tail) with (lit " from '" ++ tail) in Hm'.
  rewrite Hm in Hm'. injection Hm' as ->.
  unfold es6Names. rewrite Hexec. cbn [groups]. destruct Hname as [Hne _].
  rewrite capture_same, !capture_other, truthy_Some by done. done.
Qed.

Lemma requireNames_single pre name tail :
  isName name →
  index <$> exec requireRe (pre ++ lit "const " ++ name ++ lit " = require(" ++ tail)
  = Some (length pre) →
  requireNames (pre ++ lit "const " ++ name ++ lit " = require(" ++ tail) = [name].
Proof.
  intros Hname (res & Hexec & Hm)%exec_at.
  destruct (requireRe_single (reverse pre) (lit "const") name tail
              ltac:(by left) Hname) as [st' Hm'].
  change (lit "const" ++ lit " " ++ name ++ lit " = require(" ++ tail)
    with (lit "const " ++ name ++ lit " = require(" ++ tail) in Hm'.
  rewrite Hm in Hm'. injection Hm' as ->.
  unfold requireNames. rewrite Hexec. cbn [groups]. destruct Hname as [Hne _].
  rewrite capture_same, !capture_other, truthy_Some by done. done.
Qed.

(** C10, amended. The patterns are not anchored: when the first match of the
    import pattern on a line that is not a comment line starts at a substring
    [import X from '], wherever it is on the line, or the first match of the
    require pattern starts at a substring [const X = require(], the binder
    binds [X], and no diagnostic of the scan is about [X]. *)
Theorem first_statement_binds (text : jsstring) (methods : list jsstring)
    (i : nat) (l pre name tail : jsstring) :
  isName name →
  JS.split newline text !! i = Some l →
  ¬ isCommentLine (JS.split newline text) i →
  (l = pre ++ lit "import " ++ name ++ lit " from '" ++ tail
   ∧ index <$> exec es6ImportRe l = Some (length pre))
  ∨ (l = pre ++ lit "const " ++ name ++ lit " = require(" ++ tail
     ∧ index <$> exec requireRe l = Some (length pre)) →
  name ∈ es6Names l ++ requireNames l
  ∧ name ∈ getImportedModels text
  ∧ Forall (fun d => message d ≠ notImportedMessage name) (scan text methods).
Proof.
  intros Hname Hl Hc Hform.
  assert (name ∈ es6Names l ++ requireNames l) as Hin.
  { apply elem_of_app. destruct Hform as [[-> Hidx]|[-> Hidx]]; [left|right].
    - rewrite es6Names_default by done. by apply list_elem_of_singleton.
    - rewrite requireNames_single by done. by apply list_elem_of_singleton. }
  split; [done|]. by apply (line_binding_suppresses text methods i l name).
Qed.

Lemma first_statement_binds_witness :
  isName (lit "User")
  ∧ JS.split newline importInString !! 0
    = Some (lit "const s = " ++ [dquote] ++ lit "import User from './models/User'"
            ++ [dquote] ++ lit ";")
  ∧ ¬ isCommentLine (JS.split newline importInString) 0
  ∧ index <$> exec es6ImportRe
                (lit "const s = " ++ [dquote]
                 ++ lit "import User from './models/User'" ++ [dquote] ++ lit ";")
    = Some (length (lit "const s = " ++ [dquote]))
  ∧ lit "User" ∈ getImportedModels importInString
  ∧ Forall (fun d => message d ≠ notImportedMessage (lit "User"))
      (scan importInString defaultModelMethods).
Proof.
  assert (isName (lit "User")) as Hname.
  { split; [discriminate|]. vm_compute. repeat constructor. }
  assert (¬ isCommentLine (JS.split newline importInString) 0) as Hc.
  { intros [H|(j & Hj & Hopen & _)]; [discriminate H|].
    assert (j = 0) as -> by lia. discriminate Hopen. }
  split; [exact Hname|]. split; [reflexivity|]. split; [exact Hc|].
  split; [reflexivity|].
  apply (first_statement_binds importInString defaultModelMethods 0
           (lit "const s = " ++ [dquote] ++ lit "import User from './models/User'"
            ++ [dquote] ++ lit ";")
           (lit "const s = " ++ [dquote]) (lit "User")
           (lit "./models/User'" ++ [dquote] ++ lit ";") Hname eq_refl Hc).
  left. split; reflexivity.
Defined.

(** C10, as stated, fails: a line that is not a comment line contains
    [import X from 'b'] after another import statement; only the first match
    is used, [X] is not bound and its usage is reported. *)
Lemma second_statement_not_bound :
  isName (lit "X")
  ∧ JS.split newline twoImports !! 0
    = Some (lit "import Y from 'a'; "
            ++ lit "import " ++ lit "X" ++ lit " from '" ++ lit "b';")
  ∧ ¬ isCommentLine (JS.split newline twoImports) 0
  ∧ (lit "X" ∉ getImportedModels twoImports)
  ∧ scan twoImports defaultModelMethods = [ warningAt 1 0 1 (lit "X") ].
Proof.
  split; [split; [discriminate|vm_compute; repeat constructor]|].
  split; [reflexivity|]. split.
  { intros [H|(j & Hj & Hopen & _)]; [discriminate H|].
    assert (j = 0) as -> by lia. discriminate Hopen. }
  split; [|vm_compute; reflexivity].
  assert (getImportedModels twoImports = {[ lit "Y" ]}) as ->
    by (vm_compute; reflexivity).
  rewrite elem_of_singleton. discriminate.
Qed.

(** ** Bound names are never reported *)

Lemma es6Names_group n name l idx st' :
  n = 1 ∨ n = 3 → name ≠ [] →
  exec es6ImportRe l = Some (Result idx st' (capture n name noCaptures)) →
  es6Names l = [name].
Proof.
  intros Hn Hne Hexec. unfold es6Names. rewrite Hexec. cbn [groups].
  destruct Hn as [-> | ->];
    rewrite capture_same, !capture_other, truthy_Some by done; done.
Qed.

Lemma requireNames_group name l idx st' :
  name ≠ [] →
  exec requireRe l = Some (Result idx st' (capture 1 name noCaptures)) →
  requireNames l = [name].
Proof.
  intros Hne Hexec. unfold requireNames. rewrite Hexec. cbn [groups].
  rewrite capture_same, !capture_other, truthy_Some by done. done.
Qed.

(** Each of the five forms binds its name. *)
Lemma binder_forms_bind l name :
  BinderForm l name → name ∈ es6Names l ++ requireNames l.
Proof.
  intros [n q tail Hn Hq|es e q tail Hes He Hq|n q tail Hn Hq
         |kw n tail Hkw Hn|kw es e tail Hkw Hes He]; apply elem_of_app.
  - left. destruct (es6ImportRe_default [] n q tail Hn Hq) as [st' Hm].
    rewrite (es6Names_group 1 n _ _ _ ltac:(by left) (proj1 Hn) (exec_here _ _ _ Hm)).
    by apply list_elem_of_singleton.
  - left. assert (es ≠ []) as Hne by (by intros ->; apply elem_of_nil in He).
    destruct (renderEntries_body (lit " as ") ltac:(by repeat constructor)
                es Hes Hne) as [Hbne Hbody].
    rewrite es6Names_named, as_entries by done. by apply list_elem_of_fmap_2.
  - left. destruct (es6ImportRe_namespace [] n q tail Hn Hq) as [st' Hm].
    rewrite (es6Names_group 3 n _ _ _ ltac:(by right) (proj1 Hn) (exec_here _ _ _ Hm)).
    by apply list_elem_of_singleton.
  - right. destruct (requireRe_single [] kw n tail Hkw Hn) as [st' Hm].
    rewrite (requireNames_group n _ _ _ (proj1 Hn) (exec_here _ _ _ Hm)).
    by apply list_elem_of_singleton.
  - right. assert (es ≠ []) as Hne by (by intros ->; apply elem_of_nil in He).
    destruct (renderEntries_body (lit ": ") ltac:(by repeat constructor)
                es Hes Hne) as [Hbne Hbody].
    rewrite requireNames_destructured, colon_entries by done.
    by apply list_elem_of_fmap_2.
Qed.

(** C5. A name bound by a statement of one of the five forms, on a line that
    is not a comment line, is in the set of imported models, and no
    diagnostic of the scan is about it, wherever the usages are: on lines
    before the binding line as well as after it. *)
Theorem bound_name_not_reported (text : jsstring) (methods : list jsstring)
    (i : nat) (l name : jsstring) :
  JS.split newline text !! i = Some l →
  ¬ isCommentLine (JS.split newline text) i →
  BinderForm l name →
  name ∈ getImportedModels text
  ∧ Forall (fun d => message d ≠ notImportedMessage name) (scan text methods).
Proof.
  intros Hl Hc Hform.
  by apply (line_binding_suppresses text methods i l name), binder_forms_bind.
Qed.

Lemma bound_name_not_reported_witness :
  JS.split newline useBeforeImport !! 1
  = Some (lit "import User from './models/User';")
  ∧ ¬ isCommentLine (JS.split newline useBeforeImport) 1
  ∧ BinderForm (lit "import User from './models/User';") (lit "User")
  ∧ lit "User" ∈ getImportedModels useBeforeImport
  ∧ Forall (fun d => message d ≠ notImportedMessage (lit "User"))
      (scan useBeforeImport defaultModelMethods).
Proof.
  assert (¬ isCommentLine (JS.split newline useBeforeImport) 1) as Hc.
  { intros [H|(j & Hj & Hopen & _)]; [discriminate H|].
    assert (j = 0 ∨ j = 1) as [-> | ->] by (vm_compute in Hj; lia);
      discriminate Hopen. }
  assert (isName (lit "User")) as Hname.
  { split; [discriminate|]. vm_compute. repeat constructor. }
  assert (BinderForm (lit "import User from './models/User';") (lit "User"))
    as Hform.
  { exact (DefaultImportForm (lit "User") 39%N (lit "./models/User';")
             Hname eq_refl). }
  split; [reflexivity|]. split; [exact Hc|]. split; [exact Hform|].
  exact (bound_name_not_reported useBeforeImport defaultModelMethods 1
           (lit "import User from './models/User';") (lit "User")
           eq_refl Hc Hform).
Defined.

(** ** Further properties of the scan and of the quick fix *)

(** *** What a usage is *)

Section UsagePattern.

Implicit Types (st : pos) (caps : captures) (s pre rest : jsstring)
  (methods : list jsstring).

Lemma run_Lit_inv {R} s : ∀ pre rest caps (k : cont R) res,
  run (Lit s) (Pos pre rest) caps k = Some res →
  ∃ rest', rest = s ++ rest' ∧ k (Pos (reverse s ++ pre) rest') caps = Some res.
Proof.
  induction s as [|c s IH]; intros pre rest caps k res; [by exists rest|].
  cbn [Lit]. rewrite run_Seq, run_Chr. destruct rest as [|c' rest]; [done|].
  destruct (c =? c')%N eqn:Hc; [|done]. apply N.eqb_eq in Hc as <-.
  intros (rest' & -> & Hk)%IH. exists rest'. split; [done|].
  by rewrite reverse_cons, <- app_assoc.
Qed.

(** One of the listed methods is read; with no method listed, nothing is. *)
Lemma run_methodsPattern_inv {R} methods : ∀ pre rest caps (k : cont R) res,
  run (methodsPattern methods) (Pos pre rest) caps k = Some res →
  ∃ m rest', rest = m ++ rest'
             ∧ (m ∈ methods ∨ methods = [] ∧ m = [])
             ∧ k (Pos (reverse m ++ pre) rest') caps = Some res.
Proof.
  unfold methodsPattern. induction methods as [|m methods IH];
    intros pre rest caps k res.
  - intros Hk. exists [], rest. split; [done|]. split; [by right|done].
  - destruct methods as [|m' methods].
    + intros (rest' & -> & Hk)%run_Lit_inv. exists m, rest'.
      split; [done|]. split; [left; by left|done].
    + change (alts (Lit <$> m :: m' :: methods))
        with (Alt (Lit m) (alts (Lit <$> m' :: methods))).
      cbn [run]. destruct (run (Lit m) _ _ _) as [res'|] eqn:Hm.
      * intros [= ->]. apply run_Lit_inv in Hm as (rest' & -> & Hk).
        exists m, rest'. split; [done|]. split; [left; by left|done].
      * intros (m0 & rest' & -> & Hin & Hk)%IH. exists m0, rest'.
        split; [done|]. split; [|done]. left. destruct Hin as [Hin|[? _]]; [|done].
        by right.
Qed.

(** What a match of the usage pattern has read. *)
Lemma modelMethodRegex_inv methods pre rest res :
  matchAt (modelMethodRegex methods) (Pos pre rest) = Some res →
  ∃ c s m rest',
    rest = (c :: s) ++ lit "." ++ m ++ rest'
    ∧ JS.isUpper c = true ∧ Forall (fun x => JS.isWord x = true) s
    ∧ (m ∈ methods ∨ methods = [] ∧ m = [])
    ∧ isWordAt pre = false
    ∧ xorb (isWordAt (reverse (lit "." ++ m))) (isWordAt rest') = true
    ∧ res = Result (length pre)
              (Pos (reverse ((c :: s) ++ lit "." ++ m) ++ pre) rest')
              (capture 2 m (capture 1 (c :: s) noCaptures)).
Proof.
  unfold matchAt, modelMethodRegex.
  rewrite run_Seq, run_WordBoundary.
  destruct (xorb (isWordAt pre) (isWordAt rest)) eqn:Hb; [|done].
  rewrite run_Seq, run_Group, run_Seq, run_Chr.
  destruct rest as [|c rest]; [done|]. destruct (JS.isUpper c) eqn:Hc; [|done].
  rewrite run_Star_greedy. intros (s & rest1 & -> & Hs & Hk)%starGreedy_inv.
  rewrite run_Seq in Hk. apply run_Lit_inv in Hk as (rest2 & -> & Hk).
  rewrite run_Seq, run_Group in Hk.
  apply run_methodsPattern_inv in Hk as (m & rest' & -> & Hm & Hk).
  rewrite run_WordBoundary in Hk.
  destruct (xorb _ (isWordAt rest')) eqn:Hb'; [|done].
  apply (inj Some) in Hk. subst res.
  exists c, s, m, rest'. split; [done|].
  split; [done|]. split; [done|]. split; [done|]. split.
  { cbn [isWordAt] in Hb. rewrite (isUpper_isWord _ Hc) in Hb.
    by destruct (isWordAt pre). }
  split.
  { assert (isWordAt (reverse (lit "." ++ m))
            = isWordAt (reverse m ++ reverse (lit ".") ++ reverse s ++ c :: pre))
      as ->; [|done].
    rewrite reverse_app. by destruct (reverse m). }
  cbn [before]. f_equal.
  - f_equal. rewrite !reverse_app, reverse_cons, <- !app_assoc. done.
  - rewrite !consumed_app.
    change (c :: pre) with ([c] ++ pre).
    rewrite (app_assoc (reverse s)), <- reverse_cons, consumed_app. done.
Qed.

End UsagePattern.

Section UsageLoop.

Implicit Types (st : pos) (s pre rest l : jsstring)
  (methods lines : list jsstring) (u : Usage).

Lemma searchFrom_position r rest : ∀ pre res,
  searchFrom r pre rest = Some res →
  ∃ pre' rest', subject (Pos pre' rest') = subject (Pos pre rest)
                ∧ length pre ≤ length pre'
                ∧ matchAt r (Pos pre' rest') = Some res.
Proof.
  intros pre res (s & rest' & -> & Hm)%searchFrom_inv.
  exists (reverse s ++ pre), rest'. split; [|split; [|done]].
  - unfold subject. cbn [before after].
    by rewrite reverse_app, reverse_involutive, <- app_assoc.
  - rewrite length_app. lia.
Qed.

(** Every match of the inner loop is a match at a position of the line, at
    or after the position the loop was started from. *)
Lemma execLoop_position methods fuel : ∀ st res,
  res ∈ execLoop fuel (modelMethodRegex methods) st →
  ∃ pre rest, subject (Pos pre rest) = subject st
              ∧ length (before st) ≤ length pre
              ∧ matchAt (modelMethodRegex methods) (Pos pre rest) = Some res.
Proof.
  induction fuel as [|fuel IH]; intros [b a] res; cbn [execLoop before after].
  - by intros ?%elem_of_nil.
  - destruct (searchFrom _ _ _) as [res0|] eqn:Hsearch;
      [|by intros ?%elem_of_nil].
    apply searchFrom_position in Hsearch as (pre0 & rest0 & Hsub & Hlen & Hm).
    intros [->|Hin]%elem_of_cons.
    + by exists pre0, rest0.
    + apply IH in Hin as (pre & rest & Hsub' & Hlen' & Hm').
      exists pre, rest. split; [|split; [|done]].
      * rewrite Hsub', <- Hsub.
        apply modelMethodRegex_inv in Hm
          as (c & s & m & rest' & -> & _ & _ & _ & _ & _ & ->).
        unfold subject. cbn [endPos before after].
        by rewrite reverse_app, reverse_involutive, <- !app_assoc.
      * apply modelMethodRegex_inv in Hm
          as (c & s & m & rest' & -> & _ & _ & _ & _ & _ & ->).
        cbn [endPos before] in Hlen'. rewrite length_app in Hlen'. lia.
Qed.

Lemma execLoop_sorted methods fuel : ∀ st,
  StronglySorted
    (fun r1 r2 => index r1 + length (default [] (groups r1 1)) < index r2)
    (execLoop fuel (modelMethodRegex methods) st).
Proof.
  induction fuel as [|fuel IH]; intros st; cbn [execLoop]; [constructor|].
  destruct (searchFrom _ _ _) as [res0|] eqn:Hsearch; [|constructor].
  constructor; [apply IH|]. apply Forall_forall. intros res Hres.
  apply searchFrom_position in Hsearch as (pre0 & rest0 & _ & _ & Hm).
  apply modelMethodRegex_inv in Hm
    as (c & s & m & rest' & -> & _ & _ & _ & _ & _ & ->).
  apply execLoop_position in Hres as (pre & rest & _ & Hlen & Hm').
  apply matchAt_index in Hm'. cbn [before endPos] in *. rewrite Hm'.
  cbn [index groups]. rewrite capture_other, capture_same by done.
  cbn [default]. rewrite length_app, length_reverse, !length_app in Hlen.
  change (length (lit ".")) with 1 in Hlen. unfold id. cbn [length] in *. lia.
Qed.

End UsageLoop.

Section Usages.

Implicit Types (l text : jsstring) (methods lines : list jsstring) (u : Usage).


Lemma lineUsages_shape methods i l u :
  u ∈ lineUsages methods i l →
  ∃ pre rest,
    l = pre ++ modelName u ++ lit "." ++ methodName u ++ rest
    ∧ usageRange u
      = mkRange (mkPosition i (length pre))
          (mkPosition i (length pre + length (modelName u)))
    ∧ (∃ c s, modelName u = c :: s ∧ JS.isUpper c = true
              ∧ Forall (fun x => JS.isWord x = true) s)
    ∧ (methodName u ∈ methods ∨ methods = [] ∧ methodName u = [])
    ∧ stops JS.isWord (reverse pre)
    ∧ xorb (isWordAt (reverse (lit "." ++ methodName u))) (isWordAt rest) = true.
Proof.
  unfold lineUsages. intros (res & -> & Hres)%list_elem_of_fmap.
  apply execLoop_position in Hres as (pre & rest & Hsub & _ & Hm).
  apply modelMethodRegex_inv in Hm
    as (c & s & m & rest' & -> & Hc & Hs & Hmeth & Hpre & Hpost & ->).
  unfold subject in Hsub. cbn [before after] in Hsub.
  change (reverse [] ++ l) with l in Hsub.
  exists (reverse pre), rest'. unfold usageOf. cbn [modelName methodName usageRange
    groups index]. rewrite capture_same, capture_other, capture_same by done.
  cbn [default]. rewrite length_reverse.
  split; [by rewrite <- Hsub|]. split; [done|].
  split; [by exists c, s|]. split; [done|]. split; [|done].
  rewrite reverse_involutive. by destruct pre.
Qed.

End Usages.

Section Order.

Implicit Types (l text : jsstring) (methods lines : list jsstring) (u : Usage).

Lemma StronglySorted_filter {A} (R : relation A) (P : A → Prop)
    `{∀ x, Decision (P x)} (xs : list A) :
  StronglySorted R xs → StronglySorted R (filter P xs).
Proof.
  induction 1 as [|x xs Hxs IH Hx]; [constructor|].
  rewrite filter_cons. case_decide; [|done]. constructor; [done|].
  apply Forall_forall. intros y [_ Hy]%list_elem_of_filter.
  by eapply Forall_forall in Hx.
Qed.

Lemma lineUsages_sorted methods i l :
  StronglySorted (fun u1 u2 => rangeBefore (usageRange u1) (usageRange u2))
    (lineUsages methods i l).
Proof.
  unfold lineUsages. eapply StronglySorted_fmap; [|apply execLoop_sorted].
  intros r1 r2 Hlt. right. by split.
Qed.

Lemma usagesFrom_sorted methods lines : ∀ flag idx,
  StronglySorted (fun u1 u2 => rangeBefore (usageRange u1) (usageRange u2))
    (usagesFrom methods flag idx lines).
Proof.
  induction lines as [|l lines IH]; intros flag idx; cbn [usagesFrom];
    [constructor|].
  destruct (trackComment flag (JS.trim l)) as [flag' skip].
  destruct skip; [apply IH|]. case_match; [apply IH|].
  apply StronglySorted_app_2; [|apply lineUsages_sorted|apply IH].
  intros u1 u2 Hu1%lineUsages_line Hu2. left.
  apply elem_of_usagesFrom in Hu2 as (j & l2 & _ & _ & Hu2%lineUsages_line).
  lia.
Qed.

(** X1. The diagnostics of a scan come in reading order and their ranges
    never overlap: each one is on an earlier line than those after it, or
    on the same line and ends before they start. *)
Theorem diagnostics_in_reading_order (text : jsstring) (methods : list jsstring) :
  StronglySorted (fun d1 d2 => rangeBefore (range d1) (range d2))
    (scan text methods).
Proof.
  rewrite scan_eq.
  eapply (StronglySorted_fmap diagnosticOf
            (fun u1 u2 => rangeBefore (usageRange u1) (usageRange u2)));
    [done|].
  apply StronglySorted_filter, usagesFrom_sorted.
Qed.

(** X2. Every usage the scanner returns is read off a line of the
    document: the line holds the model name, a dot and the method name, one
    after the other; the name is not the tail of a longer word; and the
    range of the usage covers the model name and nothing else. *)
Theorem usage_is_a_call_site (text : jsstring) (methods : list jsstring) :
  Forall (fun u =>
            ∃ i l pre rest,
              JS.split newline text !! i = Some l
              ∧ l = pre ++ modelName u ++ lit "." ++ methodName u ++ rest
              ∧ stops JS.isWord (reverse pre)
              ∧ usageRange u
                = mkRange (mkPosition i (length pre))
                    (mkPosition i (length pre + length (modelName u))))
    (findModelMethodUsages text methods).
Proof.
  apply Forall_forall. intros u Hu.
  apply elem_of_usagesFrom in Hu as (i & l & Hl & _ & Hu).
  apply lineUsages_shape in Hu as (pre & rest & Heq & Hrange & _ & _ & Hleft & _).
  by exists i, l, pre, rest.
Qed.

(** X3. With a list of methods that is not empty and whose entries are
    names made of word characters, so that an entry read as pattern source
    matches its own text and nothing else, every usage has a model name that
    starts with an uppercase letter and goes on with word characters, and a
    method name taken from the list. *)
Theorem usage_is_capitalized_and_listed (text : jsstring)
    (methods : list jsstring) :
  Forall isName methods → methods ≠ [] →
  Forall (fun u => capitalized (modelName u) ∧ methodName u ∈ methods)
    (findModelMethodUsages text methods).
Proof.
  intros _ Hne. apply Forall_forall. intros u Hu.
  apply elem_of_usagesFrom in Hu as (i & l & Hl & _ & Hu).
  apply lineUsages_shape in Hu as (pre & rest & _ & _ & Hname & [Hm|[? _]] & _);
    done.
Qed.

Lemma usage_is_capitalized_and_listed_witness :
  Forall (fun u => capitalized (modelName u)
                   ∧ methodName u ∈ defaultModelMethods)
    (findModelMethodUsages scenarioA defaultModelMethods).
Proof.
  apply (usage_is_capitalized_and_listed scenarioA defaultModelMethods).
  - unfold defaultModelMethods. apply Forall_fmap, Forall_forall.
    intros x Hx. vm_compute in Hx.
    repeat (apply elem_of_cons in Hx as [->|Hx];
            [split; [discriminate|vm_compute; repeat constructor]|]).
    by apply elem_of_nil in Hx.
  - discriminate.
Defined.

(** X4. The inner loop of the scanner stops by itself: run with any
    bound above the length of the line, it returns the usages of the line,
    so the bound never cuts the loop short. *)
Theorem usage_loop_fuel (methods : list jsstring) (lineIndex fuel : nat)
    (l : jsstring) :
  length l < fuel →
  lineUsages methods lineIndex l
  = usageOf lineIndex <$> execLoop fuel (modelMethodRegex methods) (Pos [] l).
Proof.
  apply lineUsages_fuel.
Qed.

Lemma usage_loop_fuel_witness :
  lineUsages defaultModelMethods 1 (lit "  await User.updateOne({}, {});")
  = usageOf 1 <$>
      execLoop 100 (modelMethodRegex defaultModelMethods)
        (Pos [] (lit "  await User.updateOne({}, {});")).
Proof.
  apply (usage_loop_fuel defaultModelMethods 1 100
           (lit "  await User.updateOne({}, {});")).
  vm_compute. lia.
Defined.

End Order.

(** *** A call that is found *)

Section Detection.

Implicit Types (st : pos) (caps : captures) (s m pre rest l name : jsstring)
  (methods lines : list jsstring).

(** A run of word characters followed by a character that is not one is
    read off a text in one way only. *)
Lemma word_prefix_unique m : ∀ m' rest rest',
  Forall (fun x => JS.isWord x = true) m →
  Forall (fun x => JS.isWord x = true) m' →
  stops JS.isWord rest → stops JS.isWord rest' →
  m ++ rest = m' ++ rest' → m = m' ∧ rest = rest'.
Proof.
  induction m as [|x m IH]; intros m' rest rest' Hm Hm' Hr Hr' Heq.
  - destruct m' as [|y m']; [done|]. cbn in Heq. subst rest.
    apply Forall_cons in Hm' as [Hy _]. cbn in Hr. congruence.
  - apply Forall_cons in Hm as [Hx Hm]. destruct m' as [|y m'].
    + cbn in Heq. subst rest'. cbn in Hr'. congruence.
    + apply Forall_cons in Hm' as [Hy Hm']. injection Heq as -> Heq.
      destruct (IH m' rest rest' Hm Hm' Hr Hr' Heq) as [-> ->]. done.
Qed.

Lemma isWordAt_reverse_name m pre :
  isName m → isWordAt (reverse m ++ pre) = true.
Proof.
  intros [Hne Hm]%isName_reverse. destruct (reverse m) as [|x m']; [done|].
  by apply Forall_cons in Hm as [Hx _].
Qed.

Lemma isWordAt_stops rest : isWordAt rest = false ↔ stops JS.isWord rest.
Proof. by destruct rest. Qed.

(** With names for methods, the method that is followed by a word boundary
    is the one the alternation settles on, whatever comes before it in the
    list. *)
Lemma run_methodsPattern_word {R} methods m pre rest caps
    (g : pos → captures → captures) (k : cont R) res :
  Forall isName methods → m ∈ methods → stops JS.isWord rest →
  run WordBoundary (Pos (reverse m ++ pre) rest)
    (g (Pos (reverse m ++ pre) rest) caps) k = Some res →
  run (methodsPattern methods) (Pos pre (m ++ rest)) caps
    (fun st' caps' => run WordBoundary st' (g st' caps') k) = Some res.
Proof.
  intros Hnames Hin Hrest Hres.
  assert (∀ m', isName m' →
            ∀ x, run (Lit m') (Pos pre (m ++ rest)) caps
                   (fun st' caps' => run WordBoundary st' (g st' caps') k) = Some x →
                 x = res) as Hunique.
  { intros m' Hm' x (rest' & Heq & Hx)%run_Lit_inv.
    rewrite run_WordBoundary in Hx.
    destruct (xorb _ _) eqn:Hb; [|done].
    rewrite isWordAt_reverse_name in Hb by done. cbn in Hb.
    apply negb_true_iff, isWordAt_stops in Hb.
    assert (isName m) as Hm by (by eapply Forall_forall in Hnames).
    destruct (word_prefix_unique m m' rest rest' (proj2 Hm) (proj2 Hm') Hrest Hb Heq)
      as [<- <-].
    rewrite run_WordBoundary, isWordAt_reverse_name in Hres by done.
    apply isWordAt_stops in Hb. rewrite Hb in Hres. cbn in Hres. congruence. }
  unfold methodsPattern. induction methods as [|m0 methods IH];
    [by apply elem_of_nil in Hin|].
  apply Forall_cons in Hnames as [Hm0 Hnames].
  destruct methods as [|m1 methods].
  - apply list_elem_of_singleton in Hin as ->. cbn [fmap list_fmap alts].
    by rewrite run_Lit.
  - change (alts (Lit <$> m0 :: m1 :: methods))
      with (Alt (Lit m0) (alts (Lit <$> m1 :: methods))).
    cbn [run]. destruct (run (Lit m0) _ _ _) as [x|] eqn:Hm0run.
    + f_equal. by eapply Hunique.
    + apply IH; [done|]. apply elem_of_cons in Hin as [->|Hin]; [|done].
      rewrite run_Lit in Hm0run. rewrite run_WordBoundary in Hres.
      cbn [before after] in Hm0run, Hres. congruence.
Qed.

(** No match of the usage pattern starts at a character that is not an
    uppercase letter. *)
Lemma modelMethodRegex_needs_upper methods pre c rest :
  JS.isUpper c = false →
  matchAt (modelMethodRegex methods) (Pos pre (c :: rest)) = None.
Proof.
  intros Hc. unfold matchAt, modelMethodRegex.
  rewrite run_Seq, run_WordBoundary. destruct (xorb _ _); [|done].
  by rewrite run_Seq, run_Group, run_Seq, run_Chr, Hc.
Qed.

(** The first match on a line whose first uppercase letter starts a call on
    a listed method. *)
Lemma search_call methods pre c s m rest :
  Forall isName methods → m ∈ methods →
  Forall (fun x => JS.isUpper x = false) pre → stops JS.isWord (reverse pre) →
  JS.isUpper c = true → Forall (fun x => JS.isWord x = true) s →
  stops JS.isWord rest →
  searchFrom (modelMethodRegex methods) []
    (pre ++ (c :: s) ++ lit "." ++ m ++ rest)
  = Some (Result (length pre)
            (Pos (reverse ((c :: s) ++ lit "." ++ m) ++ reverse pre) rest)
            (capture 2 m (capture 1 (c :: s) noCaptures))).
Proof.
  intros Hnames Hin Hpre Hleft Hc Hs Hrest.
  rewrite (searchFrom_skip _ (fun x => JS.isUpper x = false));
    [|by intros; apply modelMethodRegex_needs_upper|done].
  rewrite app_nil_r. apply searchFrom_here.
  unfold matchAt, modelMethodRegex.
  rewrite run_Seq, run_WordBoundary.
  apply isWordAt_stops in Hleft. rewrite Hleft. cbn [app isWordAt].
  rewrite (isUpper_isWord _ Hc). cbn [xorb].
  rewrite run_Seq, run_Group, run_Seq, run_Chr, Hc.
  apply run_Star_all; [done|done|].
  rewrite run_Seq, run_Lit, run_Seq, run_Group.
  apply (run_methodsPattern_word methods m _ rest _
           (fun st' caps' => capture 2 (consumed _ st') caps')); [done..|].
  rewrite run_WordBoundary.
  assert (isName m) as Hm by (by eapply Forall_forall in Hnames).
  rewrite isWordAt_reverse_name by done.
  apply isWordAt_stops in Hrest. rewrite Hrest. cbn [xorb before].
  rewrite length_reverse, (consumed_app _ m).
  replace (reverse s ++ c :: reverse pre)
    with (reverse (c :: s) ++ reverse pre)
    by (by rewrite reverse_cons, <- app_assoc).
  rewrite (consumed_app _ (c :: s)).
  do 3 f_equal. change (c :: s ++ lit "." ++ m) with ((c :: s) ++ lit "." ++ m).
  rewrite !reverse_app, <- !app_assoc. done.
Qed.

End Detection.

Section Reported.

Implicit Types (l text name m pre rest : jsstring) (methods lines : list jsstring)
  (u : Usage).

(** The usages of a scanned line are usages of the document. *)
Lemma usagesFrom_scanned methods lines : ∀ flag idx i l u,
  lines !! i = Some l →
  excludedFrom flag lines !! i = Some false →
  test requireLineRe l || test importLineRe l = false →
  u ∈ lineUsages methods (idx + i) l →
  u ∈ usagesFrom methods flag idx lines.
Proof.
  induction lines as [|l0 lines IH]; intros flag idx i l u Hl Hex Htest Hu;
    [done|].
  cbn [usagesFrom excludedFrom] in *.
  destruct (trackComment flag (JS.trim l0)) as [flag' skip].
  destruct i as [|i].
  - injection Hl as ->. injection Hex as ->. rewrite Htest.
    apply elem_of_app. left. by rewrite Nat.add_0_r in Hu.
  - cbn in Hl, Hex. rewrite Nat.add_succ_r in Hu.
    specialize (IH flag' (S idx) i l u Hl Hex Htest Hu).
    destruct skip; [done|]. case_match; [done|]. apply elem_of_app. by right.
Qed.

Lemma lineUsages_first methods i l res :
  searchFrom (modelMethodRegex methods) [] l = Some res →
  usageOf i res ∈ lineUsages methods i l.
Proof.
  intros Hres. unfold lineUsages. cbn [execLoop before after].
  rewrite Hres. cbn. apply list_elem_of_here.
Qed.

Lemma scan_reports text methods u :
  u ∈ findModelMethodUsages text methods →
  modelName u ∉ getImportedModels text →
  diagnosticOf u ∈ scan text methods.
Proof.
  intros Hu Hn. rewrite scan_eq. apply list_elem_of_fmap_2.
  by apply list_elem_of_filter.
Qed.

End Reported.

(** X5. A call that is reported. On a line outside comments that is not
    passed over as an import or require line, take the first uppercase
    letter of the line: when it starts a capitalized name that is not the
    tail of a word, followed by a dot and a listed method that ends at a
    word boundary, and the name is not bound in the file, the scan gives the
    warning for that name at the columns of the name. *)
Theorem unbound_call_is_reported (text : jsstring) (methods : list jsstring)
    (i : nat) (pre name m rest : jsstring) :
  JS.split newline text !! i = Some (pre ++ name ++ lit "." ++ m ++ rest) →
  ¬ isCommentLine (JS.split newline text) i →
  test requireLineRe (pre ++ name ++ lit "." ++ m ++ rest)
  || test importLineRe (pre ++ name ++ lit "." ++ m ++ rest) = false →
  Forall (fun x => JS.isUpper x = false) pre → stops JS.isWord (reverse pre) →
  capitalized name →
  Forall isName methods → m ∈ methods → stops JS.isWord rest →
  name ∉ getImportedModels text →
  warningAt i (length pre) (length pre + length name) name ∈ scan text methods.
Proof.
  intros Hl Hc Htest Hpre Hleft (c & s & -> & Hup & Hs) Hnames Hm Hrest Hn.
  pose proof (search_call methods pre c s m rest Hnames Hm Hpre Hleft Hup Hs Hrest)
    as Hsearch.
  apply (lineUsages_first methods i) in Hsearch.
  eapply (usagesFrom_scanned methods _ false 0 i) in Hsearch;
    [|done|by eapply code_line_scanned|done].
  apply (scan_reports text methods) in Hsearch.
  - unfold diagnosticOf, usageOf in Hsearch. cbn [groups index] in Hsearch.
    rewrite capture_other, capture_same in Hsearch by done. exact Hsearch.
  - unfold usageOf. cbn [modelName groups]. by rewrite capture_other, capture_same.
Qed.

Lemma unbound_call_is_reported_witness :
  warningAt 1 8 12 (lit "User") ∈ scan scenarioA defaultModelMethods.
Proof.
  apply (unbound_call_is_reported scenarioA defaultModelMethods 1
           (lit "  await ") (lit "User") (lit "updateOne") (lit "({}, {});")).
  - vm_compute. reflexivity.
  - intros [Hc|(j & Hj & Ho & _)].
    + vm_compute in Hc. discriminate.
    + assert (j = 0 ∨ j = 1) as [-> | ->] by lia; vm_compute in Ho; discriminate.
  - vm_compute. reflexivity.
  - vm_compute. repeat constructor.
  - vm_compute. reflexivity.
  - exists 85%N, (lit "ser"). split; [reflexivity|]. split; [reflexivity|].
    vm_compute. repeat constructor.
  - unfold defaultModelMethods. apply Forall_fmap, Forall_forall.
    intros x Hx. vm_compute in Hx.
    repeat (apply elem_of_cons in Hx as [->|Hx];
            [split; [discriminate|vm_compute; repeat constructor]|]).
    by apply elem_of_nil in Hx.
  - apply (bool_decide_unpack _). vm_compute. exact I.
  - vm_compute. reflexivity.
  - vm_compute. intros H. discriminate H.
Defined.

(** X6. The diagnostics are the usages whose model is not bound, one
    diagnostic for each such usage and in the order of the usages: a model
    used at several places is reported at each of them, and a usage of a
    bound model is never reported. *)
Theorem one_diagnostic_per_unbound_usage (text : jsstring)
    (methods : list jsstring) :
  scan text methods
  = diagnosticOf <$>
      filter (fun usage => modelName usage ∉ getImportedModels text)
        (findModelMethodUsages text methods).
Proof. apply scan_eq. Qed.

(** *** The actions of the provider *)

Section Actions.

Implicit Types (document : TextDocument) (d : Diagnostic) (ds : list Diagnostic)
  (name msg : jsstring).

Lemma run_Plus_inv {R} p pre rest caps (k : cont R) res :
  run (Plus p) (Pos pre rest) caps k = Some res →
  ∃ s rest', s ≠ [] ∧ rest = s ++ rest' ∧ Forall (fun c => p c = true) s
             ∧ k (Pos (reverse s ++ pre) rest') caps = Some res.
Proof.
  unfold Plus. rewrite run_Seq, run_Chr. destruct rest as [|c rest]; [done|].
  destruct (p c) eqn:Hc; [|done]. rewrite run_Star_greedy.
  intros (s & rest' & -> & Hs & Hk)%starGreedy_inv.
  exists (c :: s), rest'. split; [done|]. split; [done|].
  split; [by constructor|]. by rewrite reverse_cons, <- app_assoc.
Qed.

(** What a message holds when a name is taken from it. *)
Lemma extractModelName_inv msg name :
  extractModelName msg = Some name →
  isName name
  ∧ ∃ pre post,
      msg = pre ++ lit "Model '" ++ name ++ lit "' is not imported" ++ post.
Proof.
  unfold extractModelName, exec.
  destruct (searchFrom modelNameRe [] msg) as [m|] eqn:Hs; [|done].
  apply searchFrom_inv in Hs as (pre & rest & -> & Hm).
  unfold matchAt, modelNameRe in Hm. rewrite run_Seq in Hm.
  apply run_Lit_inv in Hm as (rest1 & -> & Hm).
  rewrite run_Seq, run_Group in Hm.
  apply run_Plus_inv in Hm as (s & rest2 & Hne & -> & Hs & Hm).
  apply run_Lit_inv in Hm as (post & -> & Hm).
  apply (inj Some) in Hm. subst m. cbn [groups].
  rewrite consumed_app, capture_same. intros [= <-].
  split; [done|]. by exists pre, post.
Qed.

Lemma actions_loop document ds : ∀ acc,
  foldl (fun actions diagnostic =>
           if bool_decide (source diagnostic = lit "MongoDB Schema Checker") then
             match truthy (extractModelName (message diagnostic)) with
             | modelName :: _ =>
                 actions ++ [createImportAction document diagnostic modelName
                               DefaultImport]
             | [] => actions
             end
           else actions)
        acc ds
  = acc ++ (ds ≫= actionsFor document).
Proof.
  induction ds as [|d ds IH]; intros acc; cbn [foldl].
  - by rewrite app_nil_r.
  - rewrite IH. cbn [mbind list_bind]. unfold actionsFor at 2.
    case_bool_decide; [|done]. destruct (truthy _); [done|].
    by rewrite <- app_assoc.
Qed.

Lemma provideCodeActions_bind document ds :
  provideCodeActions document ds = ds ≫= actionsFor document.
Proof. unfold provideCodeActions. by rewrite actions_loop. Qed.

Lemma truthy_inv g name names : truthy g = name :: names → g = Some name ∧ names = [].
Proof. destruct g as [[|c s]|]; [done| |done]. by intros [= <- <-]. Qed.

Lemma actionsFor_diagnosticOf document usage :
  isName (modelName usage) →
  actionsFor document (diagnosticOf usage)
  = [createImportAction document (diagnosticOf usage) (modelName usage)
       DefaultImport].
Proof.
  intros Hname. unfold actionsFor. cbn [diagnosticOf source message].
  rewrite bool_decide_eq_true_2 by done.
  rewrite extractModelName_message by done.
  destruct Hname as [Hne _]. by destruct (modelName usage).
Qed.

End Actions.

(** X7. Whatever diagnostics the editor passes, every action returned is
    the default import fix of one of them, one whose source is this
    extension and whose message holds a model name; diagnostics of other
    sources give no action. *)
Theorem actions_only_for_own_diagnostics (document : TextDocument)
    (ds : list Diagnostic) :
  Forall (fun a =>
            ∃ d name,
              d ∈ ds
              ∧ source d = lit "MongoDB Schema Checker"
              ∧ extractModelName (message d) = Some name
              ∧ isName name
              ∧ a = createImportAction document d name DefaultImport)
    (provideCodeActions document ds).
Proof.
  apply Forall_forall. intros a. rewrite provideCodeActions_bind.
  intros (d & Ha & Hd)%list_elem_of_bind. unfold actionsFor in Ha.
  case_bool_decide as Hsrc; [|by apply elem_of_nil in Ha].
  destruct (truthy _) as [|name names] eqn:Ht; [by apply elem_of_nil in Ha|].
  apply truthy_inv in Ht as [Hname ->]. apply list_elem_of_singleton in Ha as ->.
  exists d, name. split; [done|]. split; [done|]. split; [done|].
  split; [|done]. by apply extractModelName_inv in Hname as [? _].
Qed.

(** X8. For the diagnostics of a scan the provider returns exactly one
    action per diagnostic, in the same order, and the action of a
    diagnostic imports the model that the diagnostic names. *)
Theorem one_action_per_diagnostic (document : TextDocument) (text : jsstring)
    (methods : list jsstring) :
  Forall2 (fun d a =>
             ∃ name, message d = notImportedMessage name
                     ∧ a = createImportAction document d name DefaultImport)
    (scan text methods) (provideCodeActions document (scan text methods)).
Proof.
  rewrite provideCodeActions_bind, scan_eq.
  assert (Forall (fun u => isName (modelName u))
            (filter (fun usage => modelName usage ∉ getImportedModels text)
               (findModelMethodUsages text methods))) as Hnames.
  { apply Forall_forall. intros u [_ Hu]%list_elem_of_filter.
    by eapply usage_name. }
  induction Hnames as [|u us Hu _ IH]; [constructor|].
  cbn [fmap list_fmap mbind list_bind]. rewrite actionsFor_diagnosticOf by done.
  constructor; [|exact IH]. by exists (modelName u).
Qed.

(** X9. A name is taken from a message only when the message holds the
    text of a not-imported warning around it: the name is made of word
    characters and stands between the opening words and the closing words
    of the warning. *)
Theorem extracted_name_is_in_the_message (msg name : jsstring) :
  extractModelName msg = Some name →
  isName name
  ∧ ∃ pre post,
      msg = pre ++ lit "Model '" ++ name ++ lit "' is not imported" ++ post.
Proof. apply extractModelName_inv. Qed.

Lemma extracted_name_is_in_the_message_witness :
  isName (lit "User")
  ∧ ∃ pre post,
      notImportedMessage (lit "User")
      = pre ++ lit "Model '" ++ lit "User" ++ lit "' is not imported" ++ post.
Proof.
  apply (extracted_name_is_in_the_message (notImportedMessage (lit "User"))
           (lit "User")).
  vm_compute. reflexivity.
Defined.

(** *** Bindings of the two versions *)

Section Versions.

Lemma addAll_subseteq names : ∀ S1 S2 : gset jsstring,
  S1 ⊆ S2 → addAll names S1 ⊆ addAll names S2.
Proof.
  intros S1 S2 Hsub name. rewrite !elem_of_addAll.
  intros [Hn|Hn]; [by left|right; by apply Hsub].
Qed.

Lemma importsFrom_earlier lines : ∀ flag (S1 S2 : gset jsstring),
  S1 ⊆ S2 → importsFrom flag S1 lines ⊆ Earlier.importsFrom S2 lines.
Proof.
  induction lines as [|l lines IH]; intros flag S1 S2 Hsub; [done|].
  cbn [importsFrom Earlier.importsFrom].
  destruct (trackComment flag (JS.trim l)) as [flag' skip].
  destruct skip; apply IH.
  - intros name Hn. apply elem_of_addAll. right. apply elem_of_addAll. right.
    by apply Hsub.
  - by do 2 apply addAll_subseteq.
Qed.

End Versions.

(** X10. The comment tracking of the later version only takes bindings
    away: every name it binds is bound by the first version as well. *)
Theorem comment_tracking_only_removes_bindings (text : jsstring) :
  getImportedModels text ⊆ Earlier.getImportedModels text.
Proof. by apply importsFrom_earlier. Qed.

(** *** Lines the scanner passes over *)

Section Accepts.

Context {R : Type}.
Implicit Types (st : pos) (caps : captures) (k : cont R) (s pre rest : jsstring).

Lemma some_Star_all p s pre rest caps k :
  Forall (fun c => p c = true) s → stops p rest →
  is_Some (k (Pos (reverse s ++ pre) rest) caps) →
  is_Some (run (Star true p) (Pos pre (s ++ rest)) caps k).
Proof. intros Hs Hstop [res Hk]. exists res. by apply run_Star_all. Qed.

Lemma some_Plus_all p s pre rest caps k :
  s ≠ [] → Forall (fun c => p c = true) s → stops p rest →
  is_Some (k (Pos (reverse s ++ pre) rest) caps) →
  is_Some (run (Plus p) (Pos pre (s ++ rest)) caps k).
Proof. intros Hne Hs Hstop [res Hk]. exists res. by apply run_Plus_all. Qed.

Lemma some_Alt_l r1 r2 st caps k :
  is_Some (run r1 st caps k) → is_Some (run (Alt r1 r2) st caps k).
Proof. intros [res H]. exists res. by apply run_Alt_l. Qed.

Lemma some_Alt_r r1 r2 st caps k :
  is_Some (run r2 st caps k) → is_Some (run (Alt r1 r2) st caps k).
Proof. intros H. cbn [run]. by destruct (run r1 st caps k). Qed.

Lemma run_LineStart rest caps k :
  run LineStart (Pos [] rest) caps k = k (Pos [] rest) caps.
Proof. reflexivity. Qed.

(** A lazy star followed by [k] succeeds when [k] accepts after some run of
    [p]. *)
Lemma some_Star_lazy p s : ∀ pre rest caps k,
  Forall (fun c => p c = true) s →
  is_Some (k (Pos (reverse s ++ pre) rest) caps) →
  is_Some (run (Star false p) (Pos pre (s ++ rest)) caps k).
Proof.
  induction s as [|c s IH]; intros pre rest caps k Hs Hk;
    cbn [run before after].
  - change (reverse [] ++ pre) with pre in Hk. destruct Hk as [res Hk].
    destruct rest; cbn [app starLazy]; by rewrite Hk.
  - apply Forall_cons in Hs as [Hc Hs]. cbn [app starLazy].
    destruct (k (Pos pre _) caps); [by eexists|]. rewrite Hc.
    apply (IH (c :: pre) rest caps k Hs).
    by rewrite reverse_cons, <- app_assoc in Hk.
Qed.

End Accepts.

Section Skipped.

Implicit Types (l ws rest : jsstring).

Lemma span_spaces l :
  ∃ s rest, l = s ++ rest ∧ allSpace s ∧ stops JS.isSpace rest.
Proof.
  induction l as [|c l (s & rest & -> & Hs & Hrest)].
  { exists [], []. split; [done|]. split; [apply Forall_nil_2|done]. }
  destruct (JS.isSpace c) eqn:Hc.
  - exists (c :: s), rest. split; [done|]. split; [by constructor|done].
  - exists [], (c :: s ++ rest). split; [done|]. split; [constructor|done].
Qed.

Lemma test_here r l : is_Some (matchAt r (Pos [] l)) → test r l = true.
Proof.
  intros [res H]. unfold test. apply bool_decide_eq_true_2. exists res.
  by apply exec_here.
Qed.

Lemma importLineRe_test ws c rest :
  allSpace ws → JS.isSpace c = true →
  test importLineRe (ws ++ lit "import" ++ c :: rest) = true.
Proof.
  intros Hws Hc. apply test_here. unfold matchAt, importLineRe.
  rewrite run_Seq, run_LineStart, run_Seq.
  apply some_Star_all; [done|done|]. rewrite run_Seq, run_Lit.
  destruct (span_spaces rest) as (s & rest' & -> & Hs & Hrest).
  apply (some_Plus_all _ (c :: s)); [done|by constructor|done|by eexists].
Qed.

Lemma declaring_keyword {R} kw st caps (k : cont R) :
  kw ∈ [lit "import"; lit "const"; lit "let"; lit "var"] →
  is_Some (run (Lit kw) st caps k) →
  is_Some (run (Alt (Lit (lit "import"))
                 (Alt (Lit (lit "const"))
                    (Alt (Lit (lit "let")) (Lit (lit "var")))))
             st caps k).
Proof.
  intros Hkw Hk.
  apply elem_of_cons in Hkw as [->|Hkw]; [by apply some_Alt_l|].
  apply some_Alt_r.
  apply elem_of_cons in Hkw as [->|Hkw]; [by apply some_Alt_l|].
  apply some_Alt_r.
  apply elem_of_cons in Hkw as [->|Hkw]; [by apply some_Alt_l|].
  apply some_Alt_r.
  by apply list_elem_of_singleton in Hkw as ->.
Qed.

Lemma requireLineRe_test ws kw sp mid sp2 rest :
  allSpace ws →
  kw ∈ [lit "import"; lit "const"; lit "let"; lit "var"] →
  sp ≠ [] → allSpace sp →
  Forall (fun c => JS.isDot c = true) mid → stops JS.isSpace (mid ++ lit "=") →
  allSpace sp2 →
  test requireLineRe
    (ws ++ kw ++ sp ++ mid ++ lit "=" ++ sp2 ++ lit "require" ++ rest) = true.
Proof.
  intros Hws Hkw Hne Hsp Hmid Hstop Hsp2. apply test_here.
  unfold matchAt, requireLineRe.
  rewrite run_Seq, run_LineStart, run_Seq.
  apply some_Star_all; [done| |].
  { clear -Hkw. repeat (apply elem_of_cons in Hkw as [->|Hkw]; [done|]).
    by apply elem_of_nil in Hkw. }
  rewrite run_Seq, run_Group. apply (declaring_keyword kw); [done|].
  rewrite run_Lit, run_Seq.
  apply some_Plus_all; [done|done|by destruct mid|]. rewrite run_Seq.
  apply some_Star_lazy; [done|]. rewrite run_Seq, run_Lit, run_Seq.
  apply some_Star_all; [done|done|]. rewrite run_Lit. by eexists.
Qed.

Lemma StatementLine_test l :
  StatementLine l → test requireLineRe l || test importLineRe l = true.
Proof.
  intros [ws c rest Hws Hc|ws kw sp mid sp2 rest Hws Hkw Hne Hsp Hmid Hstop Hsp2].
  - rewrite importLineRe_test by done. apply orb_true_r.
  - by rewrite requireLineRe_test.
Qed.

Lemma CommentPrefixed_test l :
  CommentPrefixed l → test Earlier.commentLineRe l = true.
Proof.
  intros [ws tok rest Hws Htok]. apply test_here.
  unfold matchAt, Earlier.commentLineRe.
  rewrite run_Seq, run_LineStart, run_Seq.
  apply some_Star_all; [done| |].
  { clear -Htok. repeat (apply elem_of_cons in Htok as [->|Htok]; [done|]).
    by apply elem_of_nil in Htok. }
  rewrite run_Group.
  apply elem_of_cons in Htok as [->|Htok];
    [apply some_Alt_l; rewrite run_Lit; by eexists|].
  apply some_Alt_r.
  apply elem_of_cons in Htok as [->|Htok];
    [apply some_Alt_l; rewrite run_Lit; by eexists|].
  apply some_Alt_r.
  apply list_elem_of_singleton in Htok as ->. rewrite run_Lit. by eexists.
Qed.

(** The usages of the first version come from lines that pass its two
    tests. *)
Lemma elem_of_earlier_usagesFrom methods lines : ∀ idx u,
  u ∈ Earlier.usagesFrom methods idx lines →
  ∃ i l, lines !! i = Some l
         ∧ test requireLineRe l || test importLineRe l = false
         ∧ test Earlier.commentLineRe l = false
         ∧ u ∈ lineUsages methods (idx + i) l.
Proof.
  induction lines as [|l lines IH]; intros idx u; cbn [Earlier.usagesFrom].
  - by intros ?%elem_of_nil.
  - assert (u ∈ Earlier.usagesFrom methods (S idx) lines →
            ∃ i l', (l :: lines) !! i = Some l'
                    ∧ test requireLineRe l' || test importLineRe l' = false
                    ∧ test Earlier.commentLineRe l' = false
                    ∧ u ∈ lineUsages methods (idx + i) l') as Hrest.
    { intros (i & l' & Hl' & Ht & Hc & Hu)%IH. exists (S i), l'.
      by rewrite Nat.add_succ_r. }
    destruct (test requireLineRe l || test importLineRe l) eqn:Ht; [done|].
    destruct (test Earlier.commentLineRe l) eqn:Hc; [done|].
    intros [Hu|Hu]%elem_of_app; [|by apply Hrest].
    exists 0, l. by rewrite Nat.add_0_r.
Qed.

Lemma earlier_scan_eq text methods :
  Earlier.scan text methods
  = diagnosticOf <$>
      filter (fun usage => modelName usage ∉ Earlier.getImportedModels text)
        (Earlier.findModelMethodUsages text methods).
Proof. unfold Earlier.scan. by rewrite report_loop. Qed.

End Skipped.



(** X12. The first version never reports on such a statement line either,
    nor on a line whose first characters after the indentation are a
    comment token. *)
Theorem earlier_skips_prefixed_lines (text : jsstring) (methods : list jsstring)
    (i : nat) (l : jsstring) :
  JS.split newline text !! i = Some l →
  StatementLine l ∨ CommentPrefixed l →
  Forall (fun d => line (start (range d)) ≠ i) (Earlier.scan text methods).
Proof.
  intros Hl Hskip. apply Forall_forall. intros d. rewrite earlier_scan_eq.
  intros (u & -> & [_ Hu]%list_elem_of_filter)%list_elem_of_fmap.
  apply elem_of_earlier_usagesFrom in Hu as (i' & l' & Hl' & Ht & Hc & Hu).
  apply lineUsages_line in Hu. cbn in Hu. intros Hi. cbn in Hi.
  assert (i' = i) as -> by congruence.
  assert (l' = l) as -> by congruence.
  destruct Hskip as [Hst%StatementLine_test|Hcp%CommentPrefixed_test]; congruence.
Qed.

Lemma earlier_skips_prefixed_lines_witness :
  Forall (fun d => line (start (range d)) ≠ 3)
    (Earlier.scan commentedText defaultModelMethods).
Proof.
  apply (earlier_skips_prefixed_lines commentedText defaultModelMethods 3
           (lit "// await Ghost.find({});")).
  - vm_compute. reflexivity.
  - right.
    apply (CommentPrefixedLine [] (lit "//") (lit " await Ghost.find({});")
             (Forall_nil_2 _)).
    apply list_elem_of_here.
Defined.

(** *** The statement of the quick fix *)

Section FixStatement.

Implicit Types (name l s : jsstring) (lines methods : list jsstring).

Lemma without_app x s1 s2 : without x s1 → without x s2 → without x (s1 ++ s2).
Proof. apply Forall_app_2. Qed.

Lemma name_without x name :
  JS.isWord x = false → isName name → without x name.
Proof.
  intros Hx [_ Hname]. eapply Forall_impl; [exact Hname|].
  intros c Hc. cbv beta. apply N.eqb_neq. intros ->. congruence.
Qed.

Lemma without_elem x s : without x s → x ∉ s.
Proof.
  intros Hs Hin. eapply Forall_forall in Hs; [|exact Hin].
  by rewrite N.eqb_refl in Hs.
Qed.

(** The default import statement of the quick fix, without its line break. *)
Lemma default_statement_without x name :
  JS.isWord x = false →
  without x (lit "import  from ./models/;") → (x =? dquote)%N = false →
  isName name →
  without x (lit "import " ++ name ++ lit " from " ++ [dquote]
             ++ lit "./models/" ++ name ++ [dquote] ++ lit ";").
Proof.
  intros Hx Hlit Hq Hname. pose proof (name_without x name Hx Hname) as Hn.
  assert (without x [dquote]) as Hd.
  { apply Forall_singleton. by rewrite N.eqb_sym. }
  change (lit "import  from ./models/;")
    with (lit "import " ++ lit " from " ++ lit "./models/" ++ lit ";") in Hlit.
  unfold without in Hlit. rewrite !Forall_app in Hlit.
  destruct Hlit as (H1 & H2 & H3 & H4).
  repeat apply without_app; done.
Qed.

Lemma includes_without_second s a b :
  without b s → JS.includes s [a; b] = false.
Proof.
  induction 1 as [|c s Hc Hs IH]; [done|]. cbn [JS.includes].
  rewrite IH, orb_false_r. destruct Hs as [|c' s Hc' _]; cbn [JS.startsWith].
  - by rewrite andb_false_r.
  - rewrite (N.eqb_sym b c'), Hc'. by rewrite andb_false_r.
Qed.

Lemma default_statement_trimmed tail :
  trimmed (lit "import " ++ tail ++ lit ";").
Proof.
  split; [done|]. rewrite !reverse_app. done.
Qed.

(** The tracker lets the statement through and leaves the flag unset. *)
Lemma default_statement_tracked name :
  isName name →
  trackComment false
    (JS.trim (lit "import " ++ name ++ lit " from " ++ [dquote]
              ++ lit "./models/" ++ name ++ [dquote] ++ lit ";"))
  = (false, false).
Proof.
  intros Hname.
  pose proof (default_statement_without 42%N name eq_refl
                ltac:(vm_compute; repeat constructor) eq_refl Hname) as Hstar.
  set (stmt := lit "import " ++ _) in *.
  assert (JS.trim stmt = stmt) as ->.
  { apply trim_trimmed. unfold stmt.
    replace (name ++ lit " from " ++ [dquote] ++ lit "./models/" ++ name
             ++ [dquote] ++ lit ";")
      with ((name ++ lit " from " ++ [dquote] ++ lit "./models/" ++ name
             ++ [dquote]) ++ lit ";") by (by rewrite <- !app_assoc).
    by apply default_statement_trimmed. }
  unfold trackComment.
  change (lit "/*") with [47%N; 42%N]. rewrite includes_without_second by done.
  reflexivity.
Qed.

(** A match of the require pattern has read an equals sign. *)
Lemma requireRe_needs_equals l res :
  exec requireRe l = Some res → 61%N ∈ l.
Proof.
  unfold exec. intros (s0 & rest & -> & Hm)%searchFrom_inv.
  apply elem_of_app. right.
  unfold matchAt, requireRe in Hm. rewrite run_Seq in Hm.
  apply run_inv in Hm as (st1 & caps1 & s1 & [_ Ha1] & _ & Hm).
  rewrite run_Seq in Hm.
  apply run_inv in Hm as (st2 & caps2 & s2 & [_ Ha2] & _ & Hm).
  rewrite run_Seq in Hm.
  apply run_inv in Hm as (st3 & caps3 & s3 & [_ Ha3] & _ & Hm).
  rewrite run_Seq in Hm.
  apply run_inv in Hm as ([pre4 rest4] & caps4 & s4 & [_ Ha4] & _ & Hm).
  rewrite run_Seq in Hm. apply run_Lit_inv in Hm as (rest5 & -> & _).
  cbn [after] in Ha1, Ha4. rewrite Ha1, Ha2, Ha3, Ha4.
  do 4 (apply elem_of_app; right). apply list_elem_of_here.
Qed.

Lemma default_statement_names name :
  isName name →
  es6Names (lit "import " ++ name ++ lit " from " ++ [dquote]
            ++ lit "./models/" ++ name ++ [dquote] ++ lit ";") = [name]
  ∧ requireNames (lit "import " ++ name ++ lit " from " ++ [dquote]
                  ++ lit "./models/" ++ name ++ [dquote] ++ lit ";") = [].
Proof.
  intros Hname. split.
  - destruct (es6ImportRe_default [] name dquote
                (lit "./models/" ++ name ++ [dquote] ++ lit ";") Hname eq_refl)
      as [st' Hm].
    exact (es6Names_group 1 name _ _ _ ltac:(by left) (proj1 Hname)
             (exec_here _ _ _ Hm)).
  - unfold requireNames. destruct (exec requireRe _) as [res|] eqn:Hexec; [|done].
    apply requireRe_needs_equals in Hexec.
    exfalso. revert Hexec. apply without_elem.
    by apply default_statement_without;
      [|vm_compute; repeat constructor| |].
Qed.

Lemma usagesFrom_down methods lines : ∀ flag idx,
  usagesFrom methods flag (S idx) lines
  = usageDown <$> usagesFrom methods flag idx lines.
Proof.
  induction lines as [|l lines IH]; intros flag idx; [done|].
  cbn [usagesFrom]. destruct (trackComment flag (JS.trim l)) as [flag' skip].
  destruct skip; [apply IH|]. case_match; [apply IH|].
  rewrite fmap_app, IH. f_equal. unfold lineUsages.
  rewrite <- list_fmap_compose. by apply list_fmap_ext.
Qed.

Lemma elem_of_importsFrom lines : ∀ flag (imported : gset jsstring) name,
  name ∈ importsFrom flag imported lines
  ↔ name ∈ imported ∨ name ∈ importsFrom flag ∅ lines.
Proof.
  induction lines as [|l lines IH]; intros flag imported name;
    cbn [importsFrom].
  - rewrite elem_of_empty. tauto.
  - destruct (trackComment flag (JS.trim l)) as [flag' skip].
    destruct skip; [apply IH|].
    rewrite (IH flag' (addAll _ (addAll _ imported))),
      (IH flag' (addAll _ (addAll _ ∅))), !elem_of_addAll, elem_of_empty.
    tauto.
Qed.

(** The reconciler on the usages moved down, with [name] bound as well. *)
Lemma report_down name (imported imported' : gset jsstring) (usages : list Usage) :
  (∀ n, n ∈ imported' ↔ n = name ∨ n ∈ imported) →
  diagnosticOf <$> filter (fun u => modelName u ∉ imported') (usageDown <$> usages)
  = lineDown <$>
      filter (fun d => message d ≠ notImportedMessage name)
        (diagnosticOf <$> filter (fun u => modelName u ∉ imported) usages).
Proof.
  intros Hiff. induction usages as [|u usages IH]; [done|].
  rewrite fmap_cons, !filter_cons. cbn [usageDown modelName].
  destruct (decide (modelName u ∈ imported)) as [Hin|Hin].
  - rewrite !decide_False; [exact IH|by intros H|].
    intros H. apply H, Hiff. by right.
  - rewrite (decide_True (P := modelName u ∉ imported)) by done.
    rewrite fmap_cons, filter_cons. cbn [diagnosticOf message].
    destruct (decide (modelName u = name)) as [Heq|Hne].
    + rewrite !decide_False; [exact IH|by intros H; apply H; rewrite Heq|].
      intros H. apply H, Hiff. by left.
    + rewrite !decide_True; [by rewrite !fmap_cons, IH| |].
      * by intros Heq%notImportedMessage_inj.
      * intros [?|?]%Hiff; done.
Qed.

End FixStatement.

(** X13. The statement that the quick fix writes is one the binder reads:
    in a document that has it on a line outside comments, for either import
    style, the model is bound and no diagnostic is about it. *)
Theorem fix_statement_binds (document : TextDocument) (diagnostic : Diagnostic)
    (name : jsstring) (importType : ImportType) (text : jsstring)
    (methods : list jsstring) (i : nat) (stmt : jsstring) :
  isName name →
  newText <$> edit (createImportAction document diagnostic name importType)
  = [stmt ++ [newline]] →
  JS.split newline text !! i = Some stmt →
  ¬ isCommentLine (JS.split newline text) i →
  name ∈ getImportedModels text
  ∧ Forall (fun d => message d ≠ notImportedMessage name) (scan text methods).
Proof.
  intros Hname Hedit Hl Hc.
  apply (line_binding_suppresses text methods i stmt name Hl Hc), binder_forms_bind.
  unfold createImportAction in Hedit.
  destruct importType; cbn [edit fmap list_fmap newText] in Hedit;
    apply (inj (.:: [])) in Hedit.
  - assert (stmt = lit "import " ++ name ++ lit " from " ++ [dquote]
                   ++ lit "./models/" ++ name ++ [dquote] ++ lit ";") as ->.
    { apply (inj (.++ [newline])). rewrite <- Hedit.
      by rewrite <- !app_assoc. }
    exact (DefaultImportForm name dquote
             (lit "./models/" ++ name ++ [dquote] ++ lit ";") Hname eq_refl).
  - assert (stmt = lit "import {"
                   ++ renderEntries (lit " as ") [(name, None)]
                   ++ lit "} from " ++ [dquote] ++ lit "./models" ++ [dquote]
                   ++ lit ";") as ->.
    { apply (inj (.++ [newline])). rewrite <- Hedit.
      cbn [renderEntries]. unfold renderEntry. cbn [fst snd].
      by rewrite app_nil_r, <- !app_assoc. }
    refine (NamedImportForm [(name, None)] (name, None) dquote
              (lit "./models" ++ [dquote] ++ lit ";") _ _ eq_refl).
    + by apply Forall_singleton.
    + apply list_elem_of_here.
Qed.

Lemma fix_statement_binds_witness :
  lit "User" ∈ getImportedModels callAfterImport
  ∧ Forall (fun d => message d ≠ notImportedMessage (lit "User"))
      (scan callAfterImport defaultModelMethods).
Proof.
  apply (fix_statement_binds (javascriptDocument callOnly)
           (warningAt 0 0 4 (lit "User")) (lit "User") DefaultImport
           callAfterImport defaultModelMethods 0
           (lit "import User from " ++ [dquote] ++ lit "./models/User"
            ++ [dquote] ++ lit ";")).
  - split; [discriminate|]. vm_compute. repeat constructor.
  - vm_compute. reflexivity.
  - vm_compute. reflexivity.
  - intros [Hc|(j & Hj & Ho & _)].
    + vm_compute in Hc. discriminate.
    + assert (j = 0) as -> by lia. vm_compute in Ho. discriminate.
Defined.

(** X14. In a document with no import or require line the quick fix is an
    insertion at the top of the file, and the scan of the text with the
    statement in front gives the diagnostics of the old text, one line
    further down, without those about the imported model. *)
Theorem fix_at_top_clears_the_model (document : TextDocument)
    (diagnostic : Diagnostic) (name : jsstring) (methods : list jsstring) :
  isName name →
  firstIndex isImportLine (JS.split newline (getText document)) = None →
  ∃ stmt,
    edit (createImportAction document diagnostic name DefaultImport)
    = [mkTextEdit (uri document) (mkPosition 0 0) stmt]
    ∧ scan (stmt ++ getText document) methods
      = lineDown <$>
          filter (fun d => message d ≠ notImportedMessage name)
            (scan (getText document) methods).
Proof.
  intros Hname Hnone. eexists. split.
  - unfold createImportAction. cbn [edit]. do 2 f_equal.
    unfold findImportInsertPosition.
    by rewrite lastImportLineFrom_unseen, Hnone.
  - set (text := getText document).
    set (stmt := lit "import " ++ name ++ lit " from " ++ [dquote]
                 ++ lit "./models/" ++ name ++ [dquote] ++ lit ";").
    replace ((lit "import " ++ name ++ lit " from " ++ [dquote]
              ++ lit "./models/" ++ name ++ [dquote] ++ lit ";" ++ [newline])
             ++ text)
      with (stmt ++ newline :: text)
      by (unfold stmt; by rewrite <- !app_assoc).
    rewrite !scan_eq. unfold getImportedModels, findModelMethodUsages.
    rewrite split_at
      by (by apply default_statement_without;
            [|vm_compute; repeat constructor| |]).
    cbn [usagesFrom importsFrom]. unfold stmt.
    rewrite default_statement_tracked by done.
    destruct (default_statement_names name Hname) as [-> ->].
    assert (test importLineRe
              (lit "import " ++ name ++ lit " from " ++ [dquote]
               ++ lit "./models/" ++ name ++ [dquote] ++ lit ";") = true)
      as -> by exact (importLineRe_test [] 32%N _ (Forall_nil_2 _) eq_refl).
    rewrite orb_true_r, usagesFrom_down. apply report_down.
    intros n. rewrite elem_of_importsFrom.
    cbn [addAll foldl]. rewrite elem_of_union, elem_of_singleton, elem_of_empty.
    tauto.
Qed.

Lemma fix_at_top_clears_the_model_witness :
  ∃ stmt,
    edit (createImportAction (javascriptDocument scenarioA)
            (warningAt 1 8 12 (lit "User")) (lit "User") DefaultImport)
    = [mkTextEdit (uri (javascriptDocument scenarioA)) (mkPosition 0 0) stmt]
    ∧ scan (stmt ++ getText (javascriptDocument scenarioA)) defaultModelMethods
      = lineDown <$>
          filter (fun d => message d ≠ notImportedMessage (lit "User"))
            (scan (getText (javascriptDocument scenarioA)) defaultModelMethods).
Proof.
  apply (fix_at_top_clears_the_model (javascriptDocument scenarioA)
           (warningAt 1 8 12 (lit "User")) (lit "User") defaultModelMethods).
  - split; [discriminate|]. vm_compute. repeat constructor.
  - vm_compute. reflexivity.
Defined.

(** *** Texts without comment tokens *)

Section CommentFree.

Implicit Types (l s text : jsstring) (lines methods : list jsstring).

Lemma without_trim x s : without x s → without x (JS.trim s).
Proof.
  assert (∀ t, without x t → without x (JS.trimStart t)) as Hstart.
  { induction 1 as [|c t Hc Ht IH]; [apply Forall_nil_2|]. cbn [JS.trimStart].
    destruct (JS.isSpace c); [done|by constructor]. }
  intros Hs. unfold JS.trim, JS.trimEnd.
  by apply Forall_reverse, Hstart, Forall_reverse, Hstart.
Qed.

Lemma startsWith_without_first s a p :
  without a s → JS.startsWith s (a :: p) = false.
Proof.
  intros [|c t Hc _]; [done|]. cbn [JS.startsWith].
  by rewrite (N.eqb_sym a c), Hc.
Qed.

Lemma includes_without_first s a p : without a s → JS.includes s (a :: p) = false.
Proof.
  induction 1 as [|c t Hc Ht IH]; [done|]. cbn [JS.includes].
  rewrite IH, orb_false_r. apply startsWith_without_first. by constructor.
Qed.

(** On a line without a slash the tracker changes nothing. *)
Lemma trackComment_plain l :
  without 47%N l → trackComment false (JS.trim l) = (false, false).
Proof.
  intros Hl%without_trim. unfold trackComment.
  change (lit "/*") with (47%N :: lit "*").
  change (lit "//") with (47%N :: lit "/").
  by rewrite includes_without_first, startsWith_without_first.
Qed.

(** The comment test of the first version needs a slash or a star. *)
Lemma commentLineRe_needs_token l :
  test Earlier.commentLineRe l = true → 47%N ∈ l ∨ 42%N ∈ l.
Proof.
  unfold test, exec. intros [res Hexec]%bool_decide_eq_true_1.
  apply searchFrom_inv in Hexec as (s0 & rest & -> & Hm).
  unfold matchAt, Earlier.commentLineRe in Hm. rewrite run_Seq in Hm.
  apply run_inv in Hm as (st1 & caps1 & s1 & [_ Ha1] & _ & Hm).
  rewrite run_Seq in Hm.
  apply run_inv in Hm as ([pre2 rest2] & caps2 & s2 & [_ Ha2] & _ & Hm).
  rewrite run_Group in Hm.
  change (Alt (Lit (lit "//")) (Alt (Lit (lit "/*")) (Lit (lit "*"))))
    with (methodsPattern [lit "//"; lit "/*"; lit "*"]) in Hm.
  apply run_methodsPattern_inv in Hm as (m & rest' & -> & [Hin|[? _]] & _);
    [|done].
  cbn [after] in Ha1, Ha2. rewrite Ha1, Ha2.
  assert (47%N ∈ m ∨ 42%N ∈ m) as Hm.
  { repeat (apply elem_of_cons in Hin as [->|Hin];
            [first [left; apply list_elem_of_here|right; apply list_elem_of_here]|]).
    by apply elem_of_nil in Hin. }
  rewrite !elem_of_app. tauto.
Qed.

Lemma split_without_char x text :
  without x text → Forall (without x) (JS.split newline text).
Proof.
  induction 1 as [|c t Hc Ht IH]; [by repeat constructor|].
  cbn [JS.split]. destruct (c =? newline)%N.
  - constructor; [constructor|done].
  - destruct (JS.split newline t) as [|w ws]; [by repeat constructor|].
    apply Forall_cons in IH as [Hw Hws]. constructor; [by constructor|done].
Qed.

Lemma usagesFrom_plain methods lines : ∀ idx,
  Forall (without 47%N) lines → Forall (without 42%N) lines →
  usagesFrom methods false idx lines = Earlier.usagesFrom methods idx lines.
Proof.
  induction lines as [|l lines IH]; intros idx Hslash Hstar; [done|].
  apply Forall_cons in Hslash as [Hl Hslash].
  apply Forall_cons in Hstar as [Hl' Hstar].
  cbn [usagesFrom Earlier.usagesFrom]. rewrite trackComment_plain by done.
  rewrite IH by done. destruct (test requireLineRe l || test importLineRe l); [done|].
  destruct (test Earlier.commentLineRe l) eqn:Hc; [|done].
  apply commentLineRe_needs_token in Hc as [Hc|Hc];
    exfalso; revert Hc; by apply without_elem.
Qed.

Lemma importsFrom_plain lines : ∀ imported : gset jsstring,
  Forall (without 47%N) lines →
  importsFrom false imported lines = Earlier.importsFrom imported lines.
Proof.
  induction lines as [|l lines IH]; intros imported Hslash; [done|].
  apply Forall_cons in Hslash as [Hl Hslash].
  cbn [importsFrom Earlier.importsFrom]. rewrite trackComment_plain by done.
  by apply IH.
Qed.

End CommentFree.

(** The scans of the two versions, run with one list of methods. *)
Lemma scan_plain (text : jsstring) (methods : list jsstring) :
  without 47%N text → without 42%N text →
  Earlier.scan text methods = scan text methods.
Proof.
  intros Hslash%split_without_char Hstar%split_without_char.
  unfold Earlier.scan, scan, Earlier.getImportedModels, getImportedModels,
    Earlier.findModelMethodUsages, findModelMethodUsages.
  by rewrite usagesFrom_plain, importsFrom_plain.
Qed.

(** X15. Take a document whose text has no slash and no star, and let both
    versions read the same list of methods from the setting. When the size
    gate of the later version lets the document through, the two versions
    of [checkDocument] do the same: both return early for a language that
    is not checked, and both publish the same diagnostics otherwise. *)
Theorem versions_agree_without_comment_tokens (config : Configuration)
    (document : TextDocument) :
  without 47%N (getText document) → without 42%N (getText document) →
  skipLargeFiles config
  && (maxFileSize config <? Z.of_nat (length (getText document)))%Z = false →
  Earlier.checkDocument (modelMethods config) document
  = checkDocument config document.
Proof.
  intros Hslash Hstar Hsize. unfold Earlier.checkDocument, checkDocument.
  rewrite Hsize. destruct (negb _); [done|]. f_equal. by apply scan_plain.
Qed.

Lemma versions_agree_without_comment_tokens_witness :
  Earlier.checkDocument (modelMethods configuredMethods)
    (javascriptDocument scenarioA)
  = checkDocument configuredMethods (javascriptDocument scenarioA).
Proof.
  apply (versions_agree_without_comment_tokens configuredMethods
           (javascriptDocument scenarioA)).
  - vm_compute. repeat constructor.
  - vm_compute. repeat constructor.
  - vm_compute. reflexivity.
Defined.

(** The agreement needs the shared list and the open gate. With the default
    list of each version, a call on [save] is reported by the later
    version only; and a document above the size limit is scanned by the
    first version only. *)
Lemma versions_differ_on_defaults :
  Earlier.checkDocument Earlier.defaultModelMethods (javascriptDocument saveCall)
  = Some []
  ∧ checkDocument defaultConfiguration (javascriptDocument saveCall)
    = Some [ warningAt 0 0 4 (lit "User") ]
  ∧ ∀ document,
      languageId document ∈ checkedLanguages →
      (100000 < Z.of_nat (length (getText document)))%Z →
      checkDocument defaultConfiguration document = None
      ∧ is_Some (Earlier.checkDocument Earlier.defaultModelMethods document).
Proof.
  split; [vm_compute; reflexivity|]. split; [vm_compute; reflexivity|].
  intros document Hlang Hsize. unfold checkDocument, Earlier.checkDocument.
  rewrite bool_decide_eq_true_2 by done. cbn [negb defaultConfiguration
    skipLargeFiles maxFileSize andb].
  rewrite (proj2 (Z.ltb_lt _ _) Hsize). by split; [|eexists].
Qed.

(** *** Where the fix goes *)

Section InsertAfterImport.

Lemma lastImportLineFrom_range lines : ∀ last i,
  lastImportLineFrom last i lines = last
  ∨ ∃ k l, lastImportLineFrom last i lines = Z.of_nat (i + k)
           ∧ lines !! k = Some l ∧ isImportLine l = true.
Proof.
  induction lines as [|l lines IH]; intros last i; [by left|].
  rewrite lastImportLineFrom_cons. cbv zeta.
  assert ((if isImportLine l then Z.of_nat i else last) = last
          ∨ ∃ k l', (if isImportLine l then Z.of_nat i else last) = Z.of_nat (i + k)
                    ∧ (l :: lines) !! k = Some l' ∧ isImportLine l' = true) as Hhere.
  { destruct (isImportLine l) eqn:Hl; [right|by left].
    exists 0, l. by rewrite Nat.add_0_r. }
  destruct (isRealCodeLine l && _); [exact Hhere|].
  destruct (IH (if isImportLine l then Z.of_nat i else last) (S i))
    as [->|(k & l' & -> & Hk & Hl')]; [done|].
  right. exists (S k), l'. split; [f_equal; lia|done].
Qed.

End InsertAfterImport.

(** X16. The insertion point is the top of the file when the document has
    no import or require line; otherwise it is the start of the line that
    follows an import or require line, the first one or a later one. *)
Theorem insert_position_follows_an_import (document : TextDocument) :
  match firstIndex isImportLine (JS.split newline (getText document)) with
  | None => findImportInsertPosition document = mkPosition 0 0
  | Some f =>
      ∃ k l, f ≤ k
             ∧ findImportInsertPosition document = mkPosition (S k) 0
             ∧ JS.split newline (getText document) !! k = Some l
             ∧ isImportLine l = true
  end.
Proof.
  unfold findImportInsertPosition. rewrite lastImportLineFrom_unseen.
  destruct (firstIndex isImportLine _) as [f|] eqn:Hf; [|done].
  apply firstIndex_Some in Hf as (lf & Hlf & Hf & _).
  cbn [Nat.add].
  destruct (lastImportLineFrom_range
              (drop (S f) (JS.split newline (getText document)))
              (Z.of_nat f) (S f)) as [->|(k & l & -> & Hk & Hl)].
  - exists f, lf. split; [done|]. split; [|done].
    rewrite (proj2 (Z.leb_le _ _)) by lia. f_equal. lia.
  - exists (S f + k), l. split; [lia|]. split; [|by rewrite lookup_drop in Hk].
    rewrite (proj2 (Z.leb_le _ _)) by lia. f_equal. lia.
Qed.
